(** * dd-trace-go: random source, transport contract, Kafka wrappers,
      AppSec address filter and GraphQL finish function.

    A shallow embedding of the Go code, one module per source unit:

    - [RandSource]   ddtrace/tracer random source (newRandSource, Int63, Seed)
    - [Transport]    the agent transport contract exercised by transport_test.go
    - [Sarama]       contrib/Shopify/sarama (WrapPartitionConsumer, WrapAsyncProducer)
    - [Waf]          internal/appsec waf.go (supportedAddresses)
    - [Graphql]      contrib/graph-gophers/graphql-go (TraceQuery)
*)

From stdpp Require Import base option list gmap strings.
From Stdlib Require Import ZArith Lia Ascii Numbers.DecimalString DecimalZ OrderedTypeEx.

Local Open Scope Z_scope.

(** ** Go machine integers *)

(** [int64(z)]: two's complement wrap-around of a mathematical integer. *)
Definition int64 (z : Z) : Z := (z + 2 ^ 63) mod 2 ^ 64 - 2 ^ 63.

(** [math.MaxInt64] *)
Definition MaxInt64 : Z := 2 ^ 63 - 1.

(** ** Blocking computations

    Methods that take a [sync.Mutex] are modelled in a small monad over the
    receiver's state.  A computation either returns, or parks the calling
    goroutine on a lock ([Blocked]), or aborts the process ([Fatal], Go's
    "unlock of unlocked mutex"), or uses up the recursion budget of the
    model ([OutOfFuel]). *)

Inductive outcome (St A : Type) : Type :=
| Returned (a : A) (st : St)
| Blocked (st : St)
| Fatal (st : St)
| OutOfFuel (st : St).
Arguments Returned {St A} a st.
Arguments Blocked {St A} st.
Arguments Fatal {St A} st.
Arguments OutOfFuel {St A} st.

Definition M (St A : Type) : Type := St -> outcome St A.

#[export] Instance outcome_ret St : MRet (M St) :=
  fun A (a : A) st => Returned a st.

#[export] Instance outcome_bind St : MBind (M St) :=
  fun A B (k : A -> M St B) (m : M St A) st =>
    match m st with
    | Returned a st' => k a st'
    | Blocked st' => Blocked st'
    | Fatal st' => Fatal st'
    | OutOfFuel st' => OutOfFuel st'
    end.

(** The state a computation stopped in, whatever the outcome. *)
Definition final_state {St A} (o : outcome St A) : St :=
  match o with
  | Returned _ st | Blocked st | Fatal st | OutOfFuel st => st
  end.

Definition has_returned {St A} (o : outcome St A) : bool :=
  match o with Returned _ _ => true | _ => false end.

(** ** ddtrace/tracer: the random source *)

Module RandSource.

(** The interface [math/rand.Source]: [Int63() int64] and [Seed(int64)],
    over the implementation's generator state. *)
Class Source (S : Type) : Type := {
  src_Int63 : S -> Z * S;
  src_Seed : Z -> S -> S;
  NewSource : Z -> S;
}.

(** The documented contract of [rand.Source.Int63]: "a non-negative
    pseudo-random 63-bit integer as an int64". *)
Definition Int63_contract (S : Type) `{Source S} : Prop :=
  forall s : S, 0 <= fst (src_Int63 s) < 2 ^ 63.

(** The result of [cryptorand.Int(cryptorand.Reader, max)]: a value in
    [0, max) or an error. *)
Inductive cryptoResult : Type :=
| CryptoOk (n : Z)
| CryptoErr (err : string).

(** The line [log.Printf] writes when the cryptographic read fails. *)
Definition seedLogLine (err : string) : string :=
  "cannot generate random seed: " +:+ err +:+ "; using current time" +:+
  String (Ascii.ascii_of_nat 10) "".

Section with_source.
Context {S : Type} `{Source S}.

(** [type randSource struct { source rand.Source; sync.Mutex }];
    [locked] is the state of the embedded mutex. *)
Record randSource : Type := mkRandSource {
  source : S;
  locked : bool;
}.

(** [sync.Mutex.Lock]: not reentrant, the caller parks while it is held. *)
Definition Lock : M randSource unit := fun rs =>
  if locked rs then Blocked rs
  else Returned tt {| source := source rs; locked := true |}.

(** [sync.Mutex.Unlock]: a run-time fatal error on an unlocked mutex. *)
Definition Unlock : M randSource unit := fun rs =>
  if locked rs then Returned tt {| source := source rs; locked := false |}
  else Fatal rs.

(** [rs.source.Int63()] *)
Definition source_Int63 : M randSource Z := fun rs =>
  let '(n, s') := src_Int63 (source rs) in
  Returned n {| source := s'; locked := locked rs |}.

(** [rs.source.Seed(seed)]; the method below never reaches it. *)
Definition source_Seed (seed : Z) : M randSource unit := fun rs =>
  Returned tt {| source := src_Seed seed (source rs); locked := locked rs |}.

(** [func newRandSource()], which returns a [randSource] pointer and an
    error.  The two reads of the outside world are arguments: the outcome
    of the cryptographic read and [time.Now().UnixNano()].  The result is
    the returned pointer ([None] for nil), the returned error ([None] for
    nil) and the lines written with [log.Printf]. *)
Definition newRandSource (crypto : cryptoResult) (now : Z)
  : option randSource * option string * list string :=
  let '(seed, logged) :=
    match crypto with
    | CryptoOk n => (int64 n, [])
    | CryptoErr err => (int64 now, [seedLogLine err])
    end in
  let source := NewSource seed in
  (Some {| source := source; locked := false |}, None, logged).

(** [func (rs) Int63() int64]: [rs.Lock(); n := rs.source.Int63();
    rs.Unlock(); return n] *)
Definition Int63 : M randSource Z :=
  Lock ;;
  n ← source_Int63 ;
  Unlock ;;
  mret n.

(** [func (rs) Seed(seed int64)]: [rs.Lock(); rs.Seed(seed); rs.Unlock()].
    The body calls [rs.Seed], the method itself, not [rs.source.Seed].
    [fuel] bounds the depth of the recursion in the model. *)
Fixpoint Seed (fuel : nat) (seed : Z) : M randSource unit :=
  match fuel with
  | O => fun rs => OutOfFuel rs
  | Datatypes.S fuel' =>
      Lock ;;
      Seed fuel' seed ;;
      Unlock
  end.

End with_source.

Arguments randSource S : clear implicits.

(** A linear congruential generator behind the [Source] interface, to run
    the wrapper on concrete states; like the generator of math/rand it
    masks its output to 63 bits. *)
Definition lcg_next (s : Z) : Z := (s * 6364136223846793005 + 1442695040888963407) mod 2 ^ 64.

#[export] Instance lcgSource : Source Z := {|
  src_Int63 := fun s => let s' := lcg_next s in (Z.land s' MaxInt64, s');
  src_Seed := fun seed _ => seed mod 2 ^ 64;
  NewSource := fun seed => seed mod 2 ^ 64;
|}.

End RandSource.

(** ** strconv and strings *)

(** [strconv.Itoa]: the decimal digits of an int, with a leading minus
    sign for a negative one. *)
Definition Itoa (z : Z) : string := NilZero.string_of_int (Z.to_int z).

(** [strconv.Atoi]: an optional sign and decimal digits; an error ([None])
    on anything else and on a value outside the int range. *)
Definition Atoi (s : string) : option Z :=
  let digits :=
    match s with
    | String "+"%char s' => Decimal.Pos <$> NilZero.uint_of_string s'
    | _ => NilZero.int_of_string s
    end in
  z ← Z.of_int <$> digits;
  if decide (- 2 ^ 63 <= z < 2 ^ 63) then Some z else None.

(** [strings.Repeat] *)
Fixpoint Repeat (s : string) (count : nat) : string :=
  match count with
  | O => ""
  | S n => s +:+ Repeat s n
  end.

(** ** ddtrace/tracer: the agent transport *)

Module Transport.

(** The HTTP exchange as the transport sees it. *)
Record request : Type := mkRequest {
  Method : string;
  URL : string;
  Header : gmap string string;
  ReqBody : string;
}.

Record response : Type := mkResponse {
  StatusCode : Z;
  Body : string;
}.

(** What [http.Client.Do] hands back: a transport-level error or the
    agent's response. *)
Inductive roundTrip : Type :=
| RoundTripErr (err : string)
| RoundTripOk (resp : response).

(** [recordingRoundTripper] of transport_test.go: it appends every request
    to [reqs] and delegates to the wrapped client. *)
Record recordingRoundTripper : Type := mkRecorder {
  reqs : list request;
  client : request -> roundTrip;
}.

Definition RoundTrip (req : request) (r : recordingRoundTripper)
  : roundTrip * recordingRoundTripper :=
  (client r req, {| reqs := reqs r ++ [req]; client := client r |}).

(** [payload]: the encoded bytes and the number of traces in them. *)
Record payload : Type := mkPayload {
  buf : string;
  count : Z;
}.

Definition traceCountHeader : string := "X-Datadog-Trace-Count".

(** The outcome of a send: the response body to read, or a delivery error. *)
Inductive sendResult : Type :=
| SendOk (body : string)
| SendErr (msg : string).


Section transport.
(** [http.StatusText], the standard library's table of reason phrases. *)
Variable StatusText : Z -> string.
(** [encodeTrace]: the bytes of one trace, left open: no claim here reads
    the payload bytes. *)
Context {span : Type}.
Variable encodeTrace : list span -> string.

(** Modelled from the spec: [newPayload], [payload.push] and [encode] of
    the encoder are not among the sources.  Section 4.4: the output is the
    payload bytes "plus the integer count of traces encoded", traces in
    input order. *)
Definition newPayload : payload := {| buf := ""; count := 0 |}.

Definition push (p : payload) (t : list span) : payload :=
  {| buf := buf p +:+ encodeTrace t; count := count p + 1 |}.

Definition encode (traces : list (list span)) : payload :=
  fold_left push traces newPayload.

(** The request [send] builds for a payload. *)
Definition traceRequest (traceURL : string) (p : payload) : request :=
  {| Method := "POST";
     URL := traceURL;
     Header := {[ traceCountHeader := Itoa (count p) ]};
     ReqBody := buf p |}.

(** The text of the delivery error for a failed status: the bytes one
    [Read] into a buffer of 1000 gave, then the status text in
    "%s (Status: %s)"; the status text alone when the [Read] gave nothing.
    The [Read] is taken to fill the buffer when the body has that many
    bytes, as TestTransportResponse expects. *)
Definition statusError (resp : response) : string :=
  let msg := String.substring 0 1000 (Body resp) in
  let txt := StatusText (StatusCode resp) in
  if (0 <? String.length msg)%nat then msg +:+ " (Status: " +:+ txt +:+ ")"
  else txt.

(** Modelled from the spec: [httpTransport.send] is not among the
    sources, only its tests are.  Section 4.5: "given payload bytes and
    trace count, issue one request carrying a trace-count header and the
    payload body", one attempt and no retry; a transport-level error is
    handed on as it is.  The guard on the status is the one of the
    repository's transport, [code >= 400]: sections 4.5 and 6 speak of "any
    2xx" as the success, but a response with a status below 400 is handed
    back to the caller with its body, and only a status from 400 up is
    turned into an error. *)
Definition send (traceURL : string) (p : payload) (rt : recordingRoundTripper)
  : sendResult * recordingRoundTripper :=
  let '(result, rt') := RoundTrip (traceRequest traceURL p) rt in
  match result with
  | RoundTripErr err => (SendErr err, rt')
  | RoundTripOk resp =>
      if 400 <=? StatusCode resp then (SendErr (statusError resp), rt')
      else (SendOk (Body resp), rt')
  end.
End transport.

(** *** Agent address resolution *)

(** The two environment variables read; [os.Getenv] gives the empty string
    for a variable that is not set. *)
Record environ : Type := mkEnviron {
  DD_AGENT_HOST : string;
  DD_TRACE_AGENT_PORT : string;
}.

Record config : Type := mkConfig {
  agentURL : string;
}.

Definition StartOption : Type := config -> config.

Section resolve.
(** [defaultHostname] and [defaultPort], constants of the tracer package. *)
Variables defaultHostname defaultPort : string.

Definition defaultAddress : string := defaultHostname +:+ ":" +:+ defaultPort.
Definition defaultURL : string := "http://" +:+ defaultAddress.

(** Modelled from the spec: [resolveAgentAddr] is not among the sources.
    Section 4.5: "environment-derived host/port > a well-known local
    default host:port", each component on its own as the rows of
    TestResolveAgentAddr show. *)
Definition resolveAgentAddr (env : environ) : string :=
  let host :=
    if decide (DD_AGENT_HOST env = "") then defaultHostname
    else DD_AGENT_HOST env in
  let port :=
    if decide (DD_TRACE_AGENT_PORT env = "") then defaultPort
    else DD_TRACE_AGENT_PORT env in
  host +:+ ":" +:+ port.

(** Modelled from the spec: the option [WithAgentAddr] is not among the
    sources.  Section 4.5: "explicit configuration" comes first; the rows
    of TestResolveAgentAddr give the URL it sets. *)
Definition WithAgentAddr (addr : string) : StartOption :=
  fun c => {| agentURL := "http://" +:+ addr |}.

(** The body of the subtest of TestResolveAgentAddr: the URL from the
    environment, then the option when there is one. *)
Definition resolvedConfig (inOpt : option StartOption) (env : environ) : config :=
  let c := {| agentURL := "http://" +:+ resolveAgentAddr env |} in
  match inOpt with
  | Some opt => opt c
  | None => c
  end.
End resolve.

(** The reason phrases of the two statuses TestTransportResponse serves. *)
Definition testStatusText (code : Z) : string :=
  if code =? 200 then "OK" else if code =? 400 then "Bad Request" else "".

End Transport.

(** ** sort: the standard library's search and sort on strings *)

(** Go compares strings byte by byte: [a >= x]. *)
Definition string_ge (a x : string) : bool := String.leb x a.

(** The loop of [sort.Search]: [for i < j { h := int(uint(i+j) >> 1);
    if !f(h) { i = h + 1 } else { j = h } }], returning [i].  The loop
    halves [j - i]; [fuel] counts the iterations left. *)
Fixpoint searchLoop (fuel : nat) (f : nat -> bool) (i j : nat) : nat :=
  match fuel with
  | O => i
  | S fuel' =>
      if (i <? j)%nat then
        let h := ((i + j) / 2)%nat in
        if negb (f h) then searchLoop fuel' f (h + 1) j
        else searchLoop fuel' f i h
      else i
  end.

(** [sort.Search(n, f)] *)
Definition Search (n : nat) (f : nat -> bool) : nat := searchLoop n f 0 n.

(** [sort.SearchStrings(a, x)] *)
Definition SearchStrings (a : list string) (x : string) : nat :=
  Search (length a) (fun i => string_ge (nth i a "") x).

(** [sort.Strings]: the strings in increasing order (an insertion sort
    here; the sorted order of a list is the same for every algorithm). *)
Fixpoint insertString (x : string) (l : list string) : list string :=
  match l with
  | [] => [x]
  | y :: l' => if String.leb x y then x :: l else y :: insertString x l'
  end.

Definition Strings (l : list string) : list string :=
  foldr insertString [] l.

(** A predicate that, once true, stays true up to [n]: what [sort.Search]
    asks of its argument. *)
Definition monotone_upto (n : nat) (f : nat -> bool) : Prop :=
  forall k k' : nat, (k <= k')%nat -> (k' < n)%nat -> f k = true -> f k' = true.

(** A list in increasing order, index by index. *)
Definition sorted_strings (a : list string) : Prop :=
  forall i j : nat, (i <= j)%nat -> (j < length a)%nat ->
    String.leb (nth i a "") (nth j a "") = true.

Fixpoint sorted_stringsb (a : list string) : bool :=
  match a with
  | [] => true
  | x :: a' => forallb (String.leb x) a' && sorted_stringsb a'
  end.

(** ** internal/appsec: the rule addresses the WAF supports *)

Module Waf.

(** HTTP rule addresses currently supported by the WAF *)
Definition serverRequestRawURIAddr : string := "server.request.uri.raw".
Definition serverRequestHeadersNoCookiesAddr : string := "server.request.headers.no_cookies".
Definition serverRequestCookiesAddr : string := "server.request.cookies".
Definition serverRequestQueryAddr : string := "server.request.query".
Definition serverRequestPathParams : string := "server.request.path_params".
Definition serverRequestBody : string := "server.request.body".
Definition serverResponseStatusAddr : string := "server.response.status".

(** The list [httpAddresses] as the [var] declaration writes it. *)
Definition httpAddressesDecl : list string := [
  serverRequestRawURIAddr;
  serverRequestHeadersNoCookiesAddr;
  serverRequestCookiesAddr;
  serverRequestQueryAddr;
  serverRequestPathParams;
  serverRequestBody;
  serverResponseStatusAddr
].

(** gRPC rule addresses currently supported by the WAF *)
Definition grpcServerRequestMessage : string := "grpc.server.request.message".
Definition grpcServerRequestMetadata : string := "grpc.server.request.metadata".

Definition grpcAddressesDecl : list string := [
  grpcServerRequestMessage;
  grpcServerRequestMetadata
].

(** The two package variables once [init] has run [sort.Strings] on them. *)
Definition httpAddresses : list string := Strings httpAddressesDecl.
Definition grpcAddresses : list string := Strings grpcAddressesDecl.

(** The test both branches of the loop make:
    [i := sort.SearchStrings(table, addr); i < len(table) && table[i] == addr]. *)
Definition found (table : list string) (addr : string) : bool :=
  let i := SearchStrings table addr in
  (i <? length table)%nat && String.eqb (nth i table "") addr.

(** The three result slices of [supportedAddresses]. *)
Record supported : Type := mkSupported {
  supportedHTTP : list string;
  supportedGRPC : list string;
  notSupported : list string;
}.

(** One iteration of the [range] loop: [append] to one of the slices. *)
Definition classify (acc : supported) (addr : string) : supported :=
  if found httpAddresses addr then
    {| supportedHTTP := supportedHTTP acc ++ [addr];
       supportedGRPC := supportedGRPC acc;
       notSupported := notSupported acc |}
  else if found grpcAddresses addr then
    {| supportedHTTP := supportedHTTP acc;
       supportedGRPC := supportedGRPC acc ++ [addr];
       notSupported := notSupported acc |}
  else
    {| supportedHTTP := supportedHTTP acc;
       supportedGRPC := supportedGRPC acc;
       notSupported := notSupported acc ++ [addr] |}.

(** [func supportedAddresses(ruleAddresses []string)
      (supportedHTTP, supportedGRPC, notSupported []string)] *)
Definition supportedAddresses (ruleAddresses : list string) : supported :=
  fold_left classify ruleAddresses (mkSupported [] [] []).

(** The three classes of addresses. *)
Definition isHTTP (addr : string) : Prop := addr ∈ httpAddressesDecl.
Definition isGRPC (addr : string) : Prop := addr ∈ grpcAddressesDecl.
Definition isOther (addr : string) : Prop := ¬ isHTTP addr /\ ¬ isGRPC addr.

#[export] Instance isHTTP_dec addr : Decision (isHTTP addr).
Proof. unfold isHTTP. apply _. Defined.
#[export] Instance isGRPC_dec addr : Decision (isGRPC addr).
Proof. unfold isGRPC. apply _. Defined.
#[export] Instance isOther_dec addr : Decision (isOther addr).
Proof. unfold isOther. apply _. Defined.

(** *** registerWAF *)

Inductive logLine : Type :=
| DebugPartiallySupported (notSupported : list string)
| DebugRegisteringHTTP (addresses : list string)
| DebugRegisteringGRPC (addresses : list string)
| ErrorRCBlocking (err : string)
| DebugTimeout
| ErrorUnexpected (err : string)
| DebugAttackHTTP
| DebugAttackGRPC
| DebugTooManyEvents.

(** The errors [registerWAF] returns: the one of [waf.Health], the one of
    [waf.NewHandle], "no addresses found in the rule", and "the addresses
    present in the rule are not supported" with the addresses. *)
Inductive registerError : Type :=
| ErrHealth (err : string)
| ErrNewHandle (err : string)
| ErrNoAddresses
| ErrNotSupported (notSupported : list string).

(** What [registerWAF] and the function it returns do to the WAF handle
    and to the listener registry. *)
Inductive wafEffect : Type :=
| NewHandle
| CloseHandle
| RegisterHTTP (addresses : list string)
| RegisterGRPC (addresses : list string)
| UnregisterHTTP
| UnregisterGRPC
| EnableRCBlocking
| Log (line : logLine).

(** [func (a *appsec) registerWAF() (unreg dyngo.UnregisterFunc, err error)].
    The arguments are what the outside world answers: [waf.Health()], then
    [waf.NewHandle] (an error, or a handle with these [Addresses()]), then
    [a.enableRCBlocking].  The result is the error or what the returned
    function does when called, and what the call itself did.  The deferred
    function closes the handle when the result [err] is not nil. *)
Definition registerWAF (health : option string) (newHandle : string + list string)
    (rcBlocking : option string)
  : (registerError + list wafEffect) * list wafEffect :=
  match health with
  | Some err => (inl (ErrHealth err), [])
  | None =>
      match newHandle with
      | inl err => (inl (ErrNewHandle err), [])
      | inr ruleAddresses =>
          if (length ruleAddresses =? 0)%nat then
            (inl ErrNoAddresses, [NewHandle; CloseHandle])
          else
            let r := supportedAddresses ruleAddresses in
            let http := supportedHTTP r in
            let grpc := supportedGRPC r in
            if (length http =? 0)%nat && (length grpc =? 0)%nat then
              (inl (ErrNotSupported (notSupported r)), [NewHandle; CloseHandle])
            else
              let partly :=
                if (0 <? length (notSupported r))%nat
                then [Log (DebugPartiallySupported (notSupported r))] else [] in
              let registerHTTP :=
                if (0 <? length http)%nat
                then [Log (DebugRegisteringHTTP http); RegisterHTTP http] else [] in
              let registerGRPC :=
                if (0 <? length grpc)%nat
                then [Log (DebugRegisteringGRPC grpc); RegisterGRPC grpc] else [] in
              let blocking :=
                EnableRCBlocking ::
                match rcBlocking with
                | Some err => [Log (ErrorRCBlocking err)]
                | None => []
                end in
              let unregister :=
                (if (0 <? length http)%nat then [UnregisterHTTP] else [])
                ++ (if (0 <? length grpc)%nat then [UnregisterGRPC] else [])
                ++ [CloseHandle] in
              (inr unregister,
               [NewHandle] ++ partly ++ registerHTTP ++ registerGRPC ++ blocking)
      end
  end.

(** *** runWAF *)

(** What [wafCtx.Run] returns: the matches and no error, [waf.ErrTimeout]
    or another error. *)
Inductive runError : Type :=
| ErrTimeout
| ErrOther (err : string).

Record runResult : Type := mkRunResult {
  matches : string;
  runErr : option runError;
}.

(** [func runWAF(wafCtx, values, timeout) []byte], on the result of
    [wafCtx.Run]: the bytes returned (empty for nil) and the lines logged. *)
Definition runWAF (r : runResult) : string * list logLine :=
  match runErr r with
  | Some ErrTimeout => (matches r, [DebugTimeout])
  | Some (ErrOther err) => ("", [ErrorUnexpected err])
  | None => (matches r, [])
  end.

(** *** The HTTP listener *)

(** The values given to the WAF, [interface{}] in the source. *)
Inductive wafValue : Type :=
| VRawURI (uri : string)
| VMulti (m : list (string * list string))
| VParams (m : list (string * string))
| VBody (body : string)
| VStatus (status : Z)
| VMessage (message : string).

(** [httpsec.HandlerOperationArgs]; a nil map is [None]. *)
Record HandlerOperationArgs : Type := mkHandlerOperationArgs {
  RequestURI : string;
  Headers : option (list (string * list string));
  Cookies : option (list (string * list string));
  Query : option (list (string * list string));
  PathParams : option (list (string * string));
}.

(** The [switch addr] of the listener: one entry of [values]. *)
Definition addValue (args : HandlerOperationArgs) (body : option string)
    (status : Z) (values : gmap string wafValue) (addr : string)
  : gmap string wafValue :=
  if decide (addr = serverRequestRawURIAddr) then
    <[serverRequestRawURIAddr := VRawURI (RequestURI args)]> values
  else if decide (addr = serverRequestHeadersNoCookiesAddr) then
    match Headers args with
    | Some headers => <[serverRequestHeadersNoCookiesAddr := VMulti headers]> values
    | None => values
    end
  else if decide (addr = serverRequestCookiesAddr) then
    match Cookies args with
    | Some cookies => <[serverRequestCookiesAddr := VMulti cookies]> values
    | None => values
    end
  else if decide (addr = serverRequestQueryAddr) then
    match Query args with
    | Some query => <[serverRequestQueryAddr := VMulti query]> values
    | None => values
    end
  else if decide (addr = serverRequestPathParams) then
    match PathParams args with
    | Some pathParams => <[serverRequestPathParams := VParams pathParams]> values
    | None => values
    end
  else if decide (addr = serverRequestBody) then
    match body with
    | Some b => <[serverRequestBody := VBody b]> values
    | None => values
    end
  else if decide (addr = serverResponseStatusAddr) then
    <[serverResponseStatusAddr := VStatus status]> values
  else values.

(** [values := make(map[string]interface{}, len(addresses));
    for _, addr := range addresses { switch addr { ... } }] *)
Definition httpValues (addresses : list string) (args : HandlerOperationArgs)
    (body : option string) (status : Z) : gmap string wafValue :=
  fold_left (addValue args body status) addresses ∅.

(** What the request has for an address: nothing for a nil map, for a
    body that was never set, and for an address that is not an HTTP one. *)
Definition requestDatum (args : HandlerOperationArgs) (body : option string)
    (status : Z) (addr : string) : option wafValue :=
  if decide (addr = serverRequestRawURIAddr) then Some (VRawURI (RequestURI args))
  else if decide (addr = serverRequestHeadersNoCookiesAddr) then VMulti <$> Headers args
  else if decide (addr = serverRequestCookiesAddr) then VMulti <$> Cookies args
  else if decide (addr = serverRequestQueryAddr) then VMulti <$> Query args
  else if decide (addr = serverRequestPathParams) then VParams <$> PathParams args
  else if decide (addr = serverRequestBody) then VBody <$> body
  else if decide (addr = serverResponseStatusAddr) then Some (VStatus status)
  else None.

(** What a listener does to the operation and to the WAF context. *)
Inductive opEffect : Type :=
| RunWAF (values : gmap string wafValue)
| AddWAFMonitoringTags (overallRuntimeNs internalRuntimeNs timeouts : Z)
| AddRulesMonitoringTags
| AddTagManualKeep
| LimiterAllow (allowed : bool)
| AddSecurityEvents (events : list string)
| ContextClose
| Logged (line : logLine).

(** A WAF context for one call: what [Run] answers for the values, and
    [TotalRuntime()] and [TotalTimeouts()] after the run. *)
Record wafContext : Type := mkWafContext {
  Run : gmap string wafValue -> runResult;
  TotalRuntime : Z * Z;
  TotalTimeouts : Z;
}.

(** One request as the HTTP listener meets it: the operation arguments,
    the body the SDK reported, the response status, the context
    [waf.NewContext] gives ([None] when the handle was released) and what
    the limiter answers if asked. *)
Record httpCall : Type := mkHttpCall {
  hArgs : HandlerOperationArgs;
  hBody : option string;
  hStatus : Z;
  hContext : option wafContext;
  hAllow : bool;
}.

(** The callback of [OnHandlerOperationFinish] in
    [newHTTPWAFEventListener].  [once] tells whether [monitorRulesOnce] has
    fired; the result is what the call does and [once] after it. *)
Definition httpOnFinish (addresses : list string) (call : httpCall) (once : bool)
  : list opEffect * bool :=
  match hContext call with
  | None => ([], once)
  | Some wafCtx =>
      let values := httpValues addresses (hArgs call) (hBody call) (hStatus call) in
      let '(found, logged) := runWAF (Run wafCtx values) in
      let monitoring :=
        [AddWAFMonitoringTags (TotalRuntime wafCtx).1 (TotalRuntime wafCtx).2
           (TotalTimeouts wafCtx)] in
      let rules := if once then [] else [AddRulesMonitoringTags; AddTagManualKeep] in
      let attack :=
        if (String.length found =? 0)%nat then []
        else Logged DebugAttackHTTP :: LimiterAllow (hAllow call)
             :: (if hAllow call then [AddSecurityEvents [found]] else []) in
      (RunWAF values :: (Logged <$> logged) ++ monitoring ++ rules ++ attack
       ++ [ContextClose], true)
  end.

(** The listener over the requests of its lifetime, one after the other. *)
Fixpoint httpListener (addresses : list string) (calls : list httpCall) (once : bool)
  : list (list opEffect) :=
  match calls with
  | [] => []
  | call :: rest =>
      let '(effects, once') := httpOnFinish addresses call once in
      effects :: httpListener addresses rest once'
  end.

(** *** The gRPC listener *)

Definition maxWAFEventsPerRequest : Z := 10.

(** The variables of one RPC: [nbEvents], [logOnce] fired or not, the three
    [waf.AtomicU64] totals, and [events]. *)
Record grpcRequest : Type := mkGrpcRequest {
  nbEvents : Z;
  logOnceDone : bool;
  overallRuntimeNs : Z;
  internalRuntimeNs : Z;
  nbTimeouts : Z;
  collected : list string;
}.

Definition grpcRequestStart : grpcRequest :=
  {| nbEvents := 0; logOnceDone := false; overallRuntimeNs := 0;
     internalRuntimeNs := 0; nbTimeouts := 0; collected := [] |}.

(** A received message as the gRPC listener meets it. *)
Record grpcReceive : Type := mkGrpcReceive {
  gMessage : string;
  gContext : option wafContext;
}.

Definition uint64 (z : Z) : Z := z mod 2 ^ 64.
Definition uint32 (z : Z) : Z := z mod 2 ^ 32.

(** The callback of [OnReceiveOperationFinish] in
    [newGRPCWAFEventListener], one call after the other.  [metadata] is
    [handlerArgs.Metadata]. *)
Definition grpcOnReceive (metadata : list (string * list string))
    (recv : grpcReceive) (st : grpcRequest) : list opEffect * grpcRequest :=
  if nbEvents st =? maxWAFEventsPerRequest then
    ((if logOnceDone st then [] else [Logged DebugTooManyEvents]),
     {| nbEvents := nbEvents st; logOnceDone := true;
        overallRuntimeNs := overallRuntimeNs st;
        internalRuntimeNs := internalRuntimeNs st;
        nbTimeouts := nbTimeouts st; collected := collected st |})
  else
    match gContext recv with
    | None => ([], st)
    | Some wafCtx =>
        let values : gmap string wafValue :=
          let values := {[ grpcServerRequestMessage := VMessage (gMessage recv) ]} in
          if (0 <? length metadata)%nat
          then <[grpcServerRequestMetadata := VMulti metadata]> values
          else values in
        let '(event, logged) := runWAF (Run wafCtx values) in
        let overall := uint64 (overallRuntimeNs st + (TotalRuntime wafCtx).1) in
        let internal := uint64 (internalRuntimeNs st + (TotalRuntime wafCtx).2) in
        let timeouts := uint64 (nbTimeouts st + TotalTimeouts wafCtx) in
        if (String.length event =? 0)%nat then
          (RunWAF values :: (Logged <$> logged) ++ [ContextClose],
           {| nbEvents := nbEvents st; logOnceDone := logOnceDone st;
              overallRuntimeNs := overall; internalRuntimeNs := internal;
              nbTimeouts := timeouts; collected := collected st |})
        else
          (RunWAF values :: (Logged <$> logged)
           ++ [Logged DebugAttackGRPC; ContextClose],
           {| nbEvents := uint32 (nbEvents st + 1); logOnceDone := logOnceDone st;
              overallRuntimeNs := overall; internalRuntimeNs := internal;
              nbTimeouts := timeouts; collected := collected st ++ [event] |})
    end.

(** The receives of one RPC, in order. *)
Fixpoint grpcReceives (metadata : list (string * list string))
    (recvs : list grpcReceive) (st : grpcRequest) : list (list opEffect) * grpcRequest :=
  match recvs with
  | [] => ([], st)
  | recv :: rest =>
      let '(effects, st') := grpcOnReceive metadata recv st in
      let '(more, st'') := grpcReceives metadata rest st' in
      (effects :: more, st'')
  end.

(** The callback of [OnHandlerOperationFinish] in
    [newGRPCWAFEventListener]. *)
Definition grpcOnFinish (st : grpcRequest) (allow once : bool) : list opEffect * bool :=
  ([AddWAFMonitoringTags (overallRuntimeNs st) (internalRuntimeNs st) (nbTimeouts st)]
   ++ (if once then [] else [AddRulesMonitoringTags; AddTagManualKeep])
   ++ (if (0 <? length (collected st))%nat
       then LimiterAllow allow
            :: (if allow then [AddSecurityEvents (collected st)] else [])
       else []),
   true).

(** The WAF results that count as events: what [runWAF] returns for the
    receives that got a context, when it is not empty. *)
Definition grpcEventOf (metadata : list (string * list string)) (recv : grpcReceive)
  : option string :=
  match gContext recv with
  | None => None
  | Some wafCtx =>
      let values : gmap string wafValue :=
        let values := {[ grpcServerRequestMessage := VMessage (gMessage recv) ]} in
        if (0 <? length metadata)%nat
        then <[grpcServerRequestMetadata := VMulti metadata]> values
        else values in
      let event := (runWAF (Run wafCtx values)).1 in
      if (String.length event =? 0)%nat then None else Some event
  end.

(** What [runWAF] returns in the HTTP listener for a call; empty when
    there is no context. *)
Definition httpFound (addresses : list string) (call : httpCall) : string :=
  match hContext call with
  | Some wafCtx =>
      (runWAF (Run wafCtx (httpValues addresses (hArgs call) (hBody call)
                             (hStatus call)))).1
  | None => ""
  end.

End Waf.

(** ** ddtrace: the span API the integrations call *)

Module Tracer.

(** Constants of package [ext] the integrations name. *)
Inductive ext : Type :=
| Component | SpanKind | EventSampleRate
| SpanTypeMessageConsumer | SpanTypeMessageProducer
| SpanKindConsumer | SpanKindProducer.

Inductive tagKey : Type :=
| Key (literal : string)
| ExtKey (name : ext).

(** A tag value; a [float64] is carried as its IEEE 754 bit pattern. *)
Inductive tagValue : Type :=
| VString (s : string)
| VInt (z : Z)
| VFloat (bits : Z)
| VExt (name : ext).

(** [math.IsNaN] on the bit pattern: exponent all ones, mantissa not zero. *)
Definition IsNaN (bits : Z) : bool :=
  (Z.land (Z.shiftr bits 52) 2047 =? 2047) && negb (Z.land bits (2 ^ 52 - 1) =? 0).

Record SpanContext : Type := mkSpanContext {
  TraceID : Z;
  SpanID : Z;
}.

Inductive StartSpanOption : Type :=
| ServiceName (name : string)
| ResourceName (name : string)
| SpanType (t : ext)
| Tag (k : tagKey) (v : tagValue)
| Measured
| ChildOf (ctx : SpanContext).

(** A span object: [ident] is the identity of the object (spans are
    compared as pointers), [Context] what [span.Context()] returns. *)
Record Span : Type := mkSpan {
  ident : nat;
  operationName : string;
  startOptions : list StartSpanOption;
  Context : SpanContext;
}.

(** What the process does that an observer can see, in program order:
    calls of the span API, and channel operations [C] of the goroutine
    making them.  [E] is the type of the error given to Finish. *)
Inductive event (E C : Type) : Type :=
| EvStart (s : Span)
| EvSetTag (span : nat) (k : tagKey) (v : tagValue)
| EvFinish (span : nat) (err : option E)
| EvChan (op : C).
Arguments EvStart {E C} s.
Arguments EvSetTag {E C} span k v.
Arguments EvFinish {E C} span err.
Arguments EvChan {E C} op.

Record tracer (E C : Type) : Type := mkTracer {
  nextIdent : nat;
  events : list (event E C);
}.
Arguments mkTracer {E C} nextIdent events.
Arguments nextIdent {E C} t.
Arguments events {E C} t.

Definition record {E C} (e : event E C) (t : tracer E C) : tracer E C :=
  {| nextIdent := nextIdent t; events := events t ++ [e] |}.

Section api.
Context {E C : Type}.
(** The identifiers the tracer draws for the n-th span it starts, given
    the options (a parent context among them or not). *)
Variable mint : nat -> list StartSpanOption -> SpanContext.

(** Modelled from the spec: [tracer.StartSpan] is not among the sources.
    Section 4.6: "creates a SpanContext (deriving traceID/parentID from
    an explicit parent or minting a fresh traceID) ... registers the span
    as open".  Each call gives a new span object. *)
Definition StartSpan (name : string) (opts : list StartSpanOption)
    (t : tracer E C) : Span * tracer E C :=
  let s := {| ident := nextIdent t; operationName := name;
              startOptions := opts; Context := mint (nextIdent t) opts |} in
  (s, {| nextIdent := S (nextIdent t); events := events t ++ [EvStart s] |}).

(** Modelled from the spec: [span.SetTag] and [span.Finish] with the
    option [tracer.WithError(err)] are not among the sources.  Section 6:
    "SetTag(key,value); SetError(err); Finish({error, finish-time
    override})".  A nil error is [None]. *)
Definition SetTag (s : Span) (k : tagKey) (v : tagValue) (t : tracer E C)
  : tracer E C := record (EvSetTag (ident s) k v) t.

Definition Finish (s : Span) (err : option E) (t : tracer E C) : tracer E C :=
  record (EvFinish (ident s) err) t.
End api.

(** The spans started and the spans finished, by identity, in order. *)
Definition startedSpans {E C} (l : list (event E C)) : list nat :=
  omap (fun e => match e with EvStart s => Some (ident s) | _ => None end) l.

Definition finishedSpans {E C} (l : list (event E C)) : list nat :=
  omap (fun e => match e with EvFinish h _ => Some h | _ => None end) l.

Definition chanOps {E C} (l : list (event E C)) : list C :=
  omap (fun e => match e with EvChan op => Some op | _ => None end) l.

End Tracer.

(** ** contrib/graph-gophers/graphql-go *)

Module Graphql.
Import Tracer.


Record config : Type := mkConfig {
  serviceName : string;
  analyticsRate : Z;
}.

Section trace_query.
(** A [*errors.QueryError] and the text [%s] prints for one, both of
    package graphql-go/errors. *)
Context {QueryError : Type}.
Variable QueryError_Error : QueryError -> string.
Variable mint : nat -> list StartSpanOption -> SpanContext.

(** The [error] interface value the finish function builds: the query
    error itself, or the new error of [fmt.Errorf]. *)
Inductive error : Type :=
| ofQueryError (e : QueryError)
| Errorf (text : string).

(** [switch n := len(errs); n { case 0: ; case 1: err = errs[0];
     default: err = fmt.Errorf("%s (and %d more errors)", errs[0], n-1) }] *)
Definition finishError (errs : list QueryError) : option error :=
  let n := length errs in
  match n with
  | O => None
  | 1%nat => ofQueryError <$> errs !! 0%nat
  | _ =>
      first ← errs !! 0%nat;
      Some (Errorf (QueryError_Error first +:+ " (and " +:+
                    Itoa (Z.of_nat n - 1) +:+ " more errors)"))
  end.

End trace_query.

Definition tagGraphqlField : string := "graphql.field".
Definition tagGraphqlType : string := "graphql.type".

Section trace_field.
Context {QueryError : Type}.
Variable mint : nat -> list StartSpanOption -> SpanContext.

(** [func (t *Tracer) TraceField(ctx, label, typeName, fieldName, trivial,
    args)]: the span it starts, if any, and the finish function it returns.
    [omitTrivial] is [t.cfg.omitTrivial]; the error handed to the finish
    function is a pointer, nil ([None]) when the field resolved. *)
Definition TraceField (cfg : config) (omitTrivial : bool)
    (typeName fieldName : string) (trivial : bool)
    (t : tracer (error (QueryError := QueryError)) Empty_set)
  : (option QueryError -> tracer error Empty_set -> tracer error Empty_set)
    * tracer error Empty_set :=
  if omitTrivial && trivial then (fun _ t => t, t)
  else
    let opts := [
      ServiceName (serviceName cfg);
      Tag (Key tagGraphqlField) (VString fieldName);
      Tag (Key tagGraphqlType) (VString typeName);
      Tag (ExtKey Component) (VString "graph-gophers/graphql-go");
      Measured ] in
    let opts :=
      if negb (IsNaN (analyticsRate cfg))
      then opts ++ [Tag (ExtKey EventSampleRate) (VFloat (analyticsRate cfg))]
      else opts in
    let '(span, t') := StartSpan mint "graphql.field" opts t in
    (fun err =>
       match err with
       | Some e => Finish span (Some (ofQueryError e))
       | None => Finish span None
       end, t').
End trace_field.

End Graphql.

(** ** contrib/Shopify/sarama *)

Module Sarama.
Import Tracer.

(** The record headers of a Kafka message, the carrier of a span context. *)
Definition headers : Type := list (string * string).

(** [sarama.ConsumerMessage] *)
Record ConsumerMessage : Type := mkConsumerMessage {
  cHeaders : headers;
  cTopic : string;
  cPartition : Z;
  cOffset : Z;
  cKey : string;
  cValue : string;
}.

(** [sarama.ProducerMessage] *)
Record ProducerMessage : Type := mkProducerMessage {
  pHeaders : headers;
  pTopic : string;
  pPartition : Z;
  pOffset : Z;
  pKey : string;
  pValue : string;
}.

(** Messages travel as pointers.  What a channel delivers is the pointer
    together with the message it points to at the time it is received. *)
Definition delivered (A : Type) : Type := nat * A.

(** [sarama.ProducerError]: the message and the error. *)
Record ProducerError : Type := mkProducerError {
  Msg : delivered ProducerMessage;
  Err : string;
}.

Record config : Type := mkConfig {
  consumerServiceName : string;
  producerServiceName : string;
  analyticsRate : Z;
}.

(** The two readings of [sarama.Config] the wrapper makes. *)
Record saramaConfig : Type := mkSaramaConfig {
  VersionIsAtLeast_V0_11_0_0 : bool;
  ProducerReturnSuccesses : bool;
}.

(** Channel operations of the consumer goroutine. *)
Inductive consumerOp : Type :=
| SendMessage (msg : delivered ConsumerMessage)
| CloseMessages.

(** Channel operations of the producer goroutine. *)
Inductive producerOp : Type :=
| SendInput (msg : delivered ProducerMessage)
| SendSuccess (msg : delivered ProducerMessage)
| SendError (err : ProducerError)
| CloseErrors
| CloseSuccesses
| CloseInput.

(** The case a [select] of the producer goroutine takes; [None] is a
    receive from a closed channel ([ok] false). *)
Inductive selected : Type :=
| FromInput (msg : delivered ProducerMessage)
| FromSuccesses (recv : option (delivered ProducerMessage))
| FromErrors (recv : option ProducerError).

(** The state of the consumer goroutine: the log, the variable [prev] and
    the number of receives the reader of [wrapped.messages] still makes. *)
Record consumerState : Type := mkConsumerState {
  cworld : tracer Empty_set consumerOp;
  prev : option Span;
  demand : nat;
}.

(** The state of the producer goroutine: the log and the map [spans]. *)
Record producerState : Type := mkProducerState {
  pworld : tracer ProducerError producerOp;
  spans : gmap Z Span;
}.

Section wrappers.
Variable mint : nat -> list StartSpanOption -> SpanContext.
(** [tracer.Extract] and [tracer.Inject] through the message carriers:
    the context read from the headers, if any, and the headers with a
    context written to them. *)
Variable Extract : headers -> option SpanContext.
Variable Inject : SpanContext -> headers -> headers.
Variable cfg : config.

Definition analyticsOpts : list StartSpanOption :=
  if negb (IsNaN (analyticsRate cfg))
  then [Tag (ExtKey EventSampleRate) (VFloat (analyticsRate cfg))]
  else [].

Definition childOfOpts (h : headers) : list StartSpanOption :=
  match Extract h with
  | Some spanctx => [ChildOf spanctx]
  | None => []
  end.

(** *** WrapPartitionConsumer *)

Definition consumeOpts (msg : ConsumerMessage) : list StartSpanOption :=
  [ ServiceName (consumerServiceName cfg);
    ResourceName ("Consume Topic " +:+ cTopic msg);
    SpanType SpanTypeMessageConsumer;
    Tag (Key "partition") (VInt (cPartition msg));
    Tag (Key "offset") (VInt (cOffset msg));
    Tag (ExtKey Component) (VString "Shopify/sarama");
    Tag (ExtKey SpanKind) (VExt SpanKindConsumer);
    Measured ] ++ analyticsOpts ++ childOfOpts (cHeaders msg).

(** [next := tracer.StartSpan("kafka.consume", opts...)] *)
Definition startConsume (msg : ConsumerMessage) : M consumerState Span :=
  fun st =>
    let '(next, w) := StartSpan mint "kafka.consume" (consumeOpts msg) (cworld st) in
    Returned next {| cworld := w; prev := prev st; demand := demand st |}.

(** [tracer.Inject(next.Context(), carrier)]: the message now carries the
    context of the new span. *)
Definition reinject (next : Span) (msg : ConsumerMessage) : ConsumerMessage :=
  {| cHeaders := Inject (Context next) (cHeaders msg);
     cTopic := cTopic msg; cPartition := cPartition msg;
     cOffset := cOffset msg; cKey := cKey msg; cValue := cValue msg |}.

(** [wrapped.messages <- msg] on the unbuffered channel: the goroutine
    parks for good when the reader makes no further receive. *)
Definition sendMessage (msg : delivered ConsumerMessage) : M consumerState unit :=
  fun st =>
    match demand st with
    | O => Blocked st
    | S d =>
        Returned tt {| cworld := record (EvChan (SendMessage msg)) (cworld st);
                       prev := prev st; demand := d |}
    end.

(** [if prev != nil { prev.Finish() }] *)
Definition finishPrev : M consumerState unit :=
  fun st =>
    match prev st with
    | Some span =>
        Returned tt {| cworld := Finish span None (cworld st);
                       prev := prev st; demand := demand st |}
    | None => Returned tt st
    end.

(** [prev = next] *)
Definition setPrev (next : Span) : M consumerState unit :=
  fun st => Returned tt {| cworld := cworld st; prev := Some next; demand := demand st |}.

(** [close(wrapped.messages)] *)
Definition closeMessages : M consumerState unit :=
  fun st =>
    Returned tt {| cworld := record (EvChan CloseMessages) (cworld st);
                   prev := prev st; demand := demand st |}.

(** The body of [for msg := range msgs]. *)
Definition consumeOne (msg : delivered ConsumerMessage) : M consumerState unit :=
  next ← startConsume msg.2;
  sendMessage (msg.1, reinject next msg.2) ;;
  finishPrev ;;
  setPrev next.

Fixpoint rangeMessages (msgs : list (delivered ConsumerMessage)) : M consumerState unit :=
  match msgs with
  | [] => mret tt
  | msg :: rest => consumeOne msg ;; rangeMessages rest
  end.

(** The goroutine of [WrapPartitionConsumer], for the messages the
    underlying channel delivers before it is closed. *)
Definition relay (msgs : list (delivered ConsumerMessage)) : M consumerState unit :=
  rangeMessages msgs ;;
  finishPrev ;;
  closeMessages.

(** The goroutine starts with [prev] nil. *)
Definition relayStart (nextIdent readerReceives : nat) : consumerState :=
  {| cworld := mkTracer nextIdent []; prev := None; demand := readerReceives |}.

(** *** WrapAsyncProducer *)

Variable saramaCfg : saramaConfig.

Definition produceOpts (msg : ProducerMessage) : list StartSpanOption :=
  [ ServiceName (producerServiceName cfg);
    ResourceName ("Produce Topic " +:+ pTopic msg);
    SpanType SpanTypeMessageProducer;
    Tag (ExtKey Component) (VString "Shopify/sarama");
    Tag (ExtKey SpanKind) (VExt SpanKindProducer) ]
  ++ analyticsOpts ++ childOfOpts (pHeaders msg).

Definition withHeaders (h : headers) (msg : ProducerMessage) : ProducerMessage :=
  {| pHeaders := h; pTopic := pTopic msg; pPartition := pPartition msg;
     pOffset := pOffset msg; pKey := pKey msg; pValue := pValue msg |}.

(** [func startProducerSpan(cfg, version, msg) ddtrace.Span]: the span,
    the message as the call leaves it, and the log. *)
Definition startProducerSpan (msg : ProducerMessage)
    (w : tracer ProducerError producerOp)
  : Span * ProducerMessage * tracer ProducerError producerOp :=
  let '(span, w') := StartSpan mint "kafka.produce" (produceOpts msg) w in
  let msg' :=
    if VersionIsAtLeast_V0_11_0_0 saramaCfg
    then withHeaders (Inject (Context span) (pHeaders msg)) msg
    else msg in
  (span, msg', w').

(** [func finishProducerSpan(span, partition, offset, err)] *)
Definition finishProducerSpan (span : Span) (partition offset : Z)
    (err : option ProducerError) (w : tracer ProducerError producerOp)
  : tracer ProducerError producerOp :=
  Finish span err
    (SetTag span (Key "offset") (VInt offset)
       (SetTag span (Key "partition") (VInt partition) w)).

(** [func getSpanContext(msg) (ddtrace.SpanContext, bool)] *)
Definition getSpanContext (msg : ProducerMessage) : option SpanContext :=
  Extract (pHeaders msg).

(** One turn of the [for { select { ... } }] loop: the case taken and the
    send that follows it, which its peer takes.  The boolean tells whether
    the loop goes on ([false]: the goroutine returns). *)
Definition turn (c : selected) (st : producerState) : producerState * bool :=
  match c with
  | FromInput msg =>
      let '(span, msg', w) := startProducerSpan msg.2 (pworld st) in
      let w := record (EvChan (SendInput (msg.1, msg'))) w in
      if ProducerReturnSuccesses saramaCfg then
        let spanID := SpanID (Context span) in
        ({| pworld := w; spans := <[spanID := span]> (spans st) |}, true)
      else
        ({| pworld := Finish span None w; spans := spans st |}, true)
  | FromSuccesses None => (st, false)
  | FromSuccesses (Some msg) =>
      let st1 :=
        match getSpanContext msg.2 with
        | Some spanctx =>
            let spanID := SpanID spanctx in
            match spans st !! spanID with
            | Some span =>
                {| pworld := finishProducerSpan span (pPartition msg.2)
                               (pOffset msg.2) None (pworld st);
                   spans := delete spanID (spans st) |}
            | None => st
            end
        | None => st
        end in
      ({| pworld := record (EvChan (SendSuccess msg)) (pworld st1);
          spans := spans st1 |}, true)
  | FromErrors None => (st, false)
  | FromErrors (Some err) =>
      let st1 :=
        match getSpanContext (Msg err).2 with
        | Some spanctx =>
            let spanID := SpanID spanctx in
            match spans st !! spanID with
            | Some span =>
                {| pworld := Finish span (Some err) (pworld st);
                   spans := delete spanID (spans st) |}
            | None => st
            end
        | None => st
        end in
      ({| pworld := record (EvChan (SendError err)) (pworld st1);
          spans := spans st1 |}, true)
  end.

(** The deferred calls, last deferred first. *)
Definition deferred (st : producerState) : producerState :=
  {| pworld := record (EvChan CloseInput)
                 (record (EvChan CloseSuccesses)
                    (record (EvChan CloseErrors) (pworld st)));
     spans := spans st |}.

(** The goroutine of [WrapAsyncProducer] over the cases its selects take,
    in order.  The boolean tells whether the goroutine has returned. *)
Fixpoint produce (cs : list selected) (st : producerState) : producerState * bool :=
  match cs with
  | [] => (st, false)
  | c :: rest =>
      let '(st', continue) := turn c st in
      if continue then produce rest st' else (deferred st', true)
  end.

(** [spans := make(map[uint64]ddtrace.Span)] *)
Definition produceStart (nextIdent : nat) : producerState :=
  {| pworld := mkTracer nextIdent []; spans := ∅ |}.
End wrappers.

(** *** Reading the consumer's log *)

(** What a reader of the log sees of the consumer goroutine, spans by
    identity and messages by pointer. *)
Inductive mark : Type :=
| Forwarded (msg : nat)
| Finished (span : nat)
| Closed.

Definition markOf (e : event Empty_set consumerOp) : option mark :=
  match e with
  | EvChan (SendMessage msg) => Some (Forwarded msg.1)
  | EvChan CloseMessages => Some Closed
  | EvFinish h _ => Some (Finished h)
  | _ => None
  end.

Definition sentMessages (l : list (event Empty_set consumerOp))
  : list (delivered ConsumerMessage) :=
  omap (fun e => match e with EvChan (SendMessage msg) => Some msg | _ => None end) l.

(** Everything of a message but its headers. *)
Definition payloadOf (msg : delivered ConsumerMessage)
  : nat * (string * Z * Z * string * string) :=
  (msg.1, (cTopic msg.2, cPartition msg.2, cOffset msg.2, cKey msg.2, cValue msg.2)).

(** The order of forwarding and finishing in words: a message is
    forwarded, then the span of the message before it is finished; after
    the last message its span is finished, and then the channel is closed. *)
Fixpoint rangeSchedule (prev : option nat) (next : nat) (msgs : list nat) : list mark :=
  match msgs with
  | [] => []
  | msg :: rest =>
      Forwarded msg :: option_list (Finished <$> prev)
      ++ rangeSchedule (Some next) (S next) rest
  end.

Definition relaySchedule (next : nat) (msgs : list nat) : list mark :=
  rangeSchedule None next msgs
  ++ match msgs with
     | [] => []
     | _ :: rest => [Finished (next + length rest)%nat]
     end
  ++ [Closed].

(** The identity of the span in [prev] after [count] more messages. *)
Definition lastIdent (prev : option nat) (next count : nat) : option nat :=
  match count with
  | O => prev
  | S k => Some (next + k)%nat
  end.

Section consumer_log.
Variable mint : nat -> list StartSpanOption -> SpanContext.
Variable Extract : headers -> option SpanContext.
Variable Inject : SpanContext -> headers -> headers.
Variable cfg : config.

(** The span started for a message when [next] spans exist. *)
Definition spanFor (next : nat) (msg : ConsumerMessage) : Span :=
  mkSpan next "kafka.consume" (consumeOpts Extract cfg msg)
    (mint next (consumeOpts Extract cfg msg)).

(** The events of the range loop entered with [prev] and the next span
    identity [next]. *)
Fixpoint rangeEvents (prev : option nat) (next : nat)
    (msgs : list (delivered ConsumerMessage)) : list (event Empty_set consumerOp) :=
  match msgs with
  | [] => []
  | msg :: rest =>
      [EvStart (spanFor next msg.2);
       EvChan (SendMessage (msg.1, reinject Inject (spanFor next msg.2) msg.2))]
      ++ option_list ((fun h => EvFinish h None) <$> prev)
      ++ rangeEvents (Some next) (S next) rest
  end.
End consumer_log.

(** *** Reading the producer's log *)


(** *** A carrier to run the wrappers on

    The propagator writes the trace and parent identifiers as two decimal
    headers; this is the carrier the examples below run the goroutines
    with. *)

Definition traceIDHeader : string := "x-datadog-trace-id".
Definition parentIDHeader : string := "x-datadog-parent-id".

Definition headerGet (key : string) (h : headers) : option string :=
  snd <$> List.find (fun kv => String.eqb kv.1 key) h.

Definition headerSet (key value : string) (h : headers) : headers :=
  List.filter (fun kv => negb (String.eqb kv.1 key)) h ++ [(key, value)].

Definition headerExtract (h : headers) : option SpanContext :=
  traceID ← headerGet traceIDHeader h ≫= Atoi;
  spanID ← headerGet parentIDHeader h ≫= Atoi;
  Some (mkSpanContext traceID spanID).

Definition headerInject (ctx : SpanContext) (h : headers) : headers :=
  headerSet parentIDHeader (Itoa (SpanID ctx))
    (headerSet traceIDHeader (Itoa (TraceID ctx)) h).

(** Identifiers for the n-th span: the trace of the parent when there is
    one, and a span ID of its own. *)
Definition countingMint (n : nat) (opts : list StartSpanOption) : SpanContext :=
  let spanID := (1000 + Z.of_nat n)%Z in
  let parent :=
    List.find (fun o => match o with ChildOf _ => true | _ => false end) opts in
  match parent with
  | Some (ChildOf ctx) => mkSpanContext (TraceID ctx) spanID
  | _ => mkSpanContext spanID spanID
  end.

(** A message for the producer, and the same message as the underlying
    producer hands it back on success, headers written and offset set. *)
Definition exampleMessage : delivered ProducerMessage :=
  (7%nat, mkProducerMessage [] "orders" 0%Z 0%Z "k" "a").

Definition exampleForwarded : delivered ProducerMessage :=
  (7%nat, mkProducerMessage [(traceIDHeader, "1000"); (parentIDHeader, "1000")]
            "orders" 0%Z 5%Z "k" "a").

Definition exampleRun (returnSuccesses : bool) (cs : list selected) : producerState :=
  (produce countingMint headerExtract headerInject
     (mkConfig "kafka" "kafka" 9221120237041090560%Z)
     (mkSaramaConfig true returnSuccesses) cs (produceStart 0%nat)).1.

(** *** Reading the producer's cases and sends *)

Definition isClose (c : selected) : bool :=
  match c with
  | FromSuccesses None | FromErrors None => true
  | _ => false
  end.

(** The cases up to the first receive from a closed channel. *)
Fixpoint beforeClose (cs : list selected) : list selected :=
  match cs with
  | [] => []
  | c :: rest => if isClose c then [] else c :: beforeClose rest
  end.

Definition receivedInputs (cs : list selected) : list (delivered ProducerMessage) :=
  omap (fun c => match c with FromInput msg => Some msg | _ => None end) cs.

Definition receivedSuccesses (cs : list selected) : list (delivered ProducerMessage) :=
  omap (fun c => match c with FromSuccesses recv => recv | _ => None end) cs.

Definition receivedErrors (cs : list selected) : list ProducerError :=
  omap (fun c => match c with FromErrors recv => recv | _ => None end) cs.

Definition sentInputs (ops : list producerOp) : list (delivered ProducerMessage) :=
  omap (fun op => match op with SendInput msg => Some msg | _ => None end) ops.

Definition sentSuccesses (ops : list producerOp) : list (delivered ProducerMessage) :=
  omap (fun op => match op with SendSuccess msg => Some msg | _ => None end) ops.

Definition sentErrors (ops : list producerOp) : list ProducerError :=
  omap (fun op => match op with SendError err => Some err | _ => None end) ops.

Definition closeOps (ops : list producerOp) : list producerOp :=
  List.filter (fun op => match op with
                         | CloseErrors | CloseSuccesses | CloseInput => true
                         | _ => false
                         end) ops.

(** Everything of a producer message but its headers. *)
Definition producerPayloadOf (msg : delivered ProducerMessage)
  : nat * (string * Z * Z * string * string) :=
  (msg.1, (pTopic msg.2, pPartition msg.2, pOffset msg.2, pKey msg.2, pValue msg.2)).

(** *** The synchronous producer *)

Module Sync.

(** The calls of the wrapped [sarama.SyncProducer], by message pointer. *)
Inductive syncCall : Type :=
| CallSendMessage (msg : nat)
| CallSendMessages (msgs : list nat).

(** The log and the messages the pointers refer to.  [E] is the type of
    the errors the wrapped producer returns. *)
Record syncState (E : Type) : Type := mkSyncState {
  sworld : tracer E syncCall;
  sheap : nat -> ProducerMessage;
}.
Arguments mkSyncState {E} sworld sheap.
Arguments sworld {E} s.
Arguments sheap {E} s.

(** The write [*msg = m] to the messages. *)
Definition store (msg : nat) (m : ProducerMessage) (h : nat -> ProducerMessage)
  : nat -> ProducerMessage :=
  fun q => if decide (q = msg) then m else h q.

Section sync_producer.
Context {E : Type}.
Variable mint : nat -> list StartSpanOption -> SpanContext.
Variable Extract : headers -> option SpanContext.
Variable Inject : SpanContext -> headers -> headers.
Variable cfg : config.
(** [p.version.IsAtLeast(sarama.V0_11_0_0)] *)
Variable versionIsAtLeast_V0_11_0_0 : bool.
(** [p.SyncProducer.SendMessage] and [p.SyncProducer.SendMessages]: what
    they return and the messages as they leave them. *)
Variable underlyingSendMessage :
  nat -> (nat -> ProducerMessage) -> Z * Z * option E * (nat -> ProducerMessage).
Variable underlyingSendMessages :
  list nat -> (nat -> ProducerMessage) -> option E * (nat -> ProducerMessage).

(** [startProducerSpan(p.cfg, p.version, msg)] on the message [msg]
    points to. *)
Definition startProducerSpan (msg : nat) (st : syncState E) : Span * syncState E :=
  let m := sheap st msg in
  let '(span, w) := StartSpan mint "kafka.produce" (produceOpts Extract cfg m) (sworld st) in
  let m' :=
    if versionIsAtLeast_V0_11_0_0
    then withHeaders (Inject (Context span) (pHeaders m)) m
    else m in
  (span, {| sworld := w; sheap := store msg m' (sheap st) |}).

(** [finishProducerSpan(span, partition, offset, err)] *)
Definition finishProducerSpan (span : Span) (partition offset : Z)
    (err : option E) (w : tracer E syncCall) : tracer E syncCall :=
  Finish span err
    (SetTag span (Key "offset") (VInt offset)
       (SetTag span (Key "partition") (VInt partition) w)).

(** [func (p *syncProducer) SendMessage(msg) (partition, offset, err)] *)
Definition SendMessage (msg : nat) (st : syncState E)
  : Z * Z * option E * syncState E :=
  let '(span, st1) := startProducerSpan msg st in
  let '(partition, offset, err, h) := underlyingSendMessage msg (sheap st1) in
  let w := record (EvChan (CallSendMessage msg)) (sworld st1) in
  (partition, offset, err,
   {| sworld := finishProducerSpan span partition offset err w; sheap := h |}).

(** [for i, msg := range msgs { spans[i] = startProducerSpan(...) }] *)
Fixpoint startAll (msgs : list nat) (st : syncState E) : list Span * syncState E :=
  match msgs with
  | [] => ([], st)
  | msg :: rest =>
      let '(span, st1) := startProducerSpan msg st in
      let '(spans, st2) := startAll rest st1 in
      (span :: spans, st2)
  end.

(** [for i, span := range spans { finishProducerSpan(span,
    msgs[i].Partition, msgs[i].Offset, err) }] *)
Fixpoint finishAll (spans : list Span) (msgs : list nat) (err : option E)
    (h : nat -> ProducerMessage) (w : tracer E syncCall) : tracer E syncCall :=
  match spans, msgs with
  | span :: spans', msg :: msgs' =>
      finishAll spans' msgs' err h
        (finishProducerSpan span (pPartition (h msg)) (pOffset (h msg)) err w)
  | _, _ => w
  end.

(** [func (p *syncProducer) SendMessages(msgs) error] *)
Definition SendMessages (msgs : list nat) (st : syncState E)
  : option E * syncState E :=
  let '(spans, st1) := startAll msgs st in
  let '(err, h) := underlyingSendMessages msgs (sheap st1) in
  let w := record (EvChan (CallSendMessages msgs)) (sworld st1) in
  (err, {| sworld := finishAll spans msgs err h w; sheap := h |}).
End sync_producer.

(** The errors the spans were finished with, in order. *)
Definition finishErrors {E C} (l : list (event E C)) : list (option E) :=
  omap (fun e => match e with EvFinish _ err => Some err | _ => None end) l.

End Sync.

End Sarama.

(** ** checkmilestone.go: the milestone check *)

Module CheckMilestone.

(** The errors [main] hands to [exit]: the one of [strconv.Atoi] on
    PR_NUMBER, the one of [http.Get], the one of the JSON decoder, and
    [errors.New("Milestone not set.")]. *)
Inductive mainError : Type :=
| ErrAtoi (input : string)
| ErrGet (err : string)
| ErrDecode (err : string)
| ErrMilestoneNotSet.

(** What [fmt.Println] writes. *)
Inductive printed : Type :=
| PrintError (err : mainError)
| PrintLine (line : string).

(** [fmt.Sprintf("https://api.github.com/repos/DataDog/dd-trace-go/issues/%d", pr)] *)
Definition issuesURL : string := "https://api.github.com/repos/DataDog/dd-trace-go/issues/".
Definition issueURL (pr : Z) : string := issuesURL +:+ Itoa pr.

(** What a run of [main] leaves behind: the lines printed, the exit status
    and the URLs requested. *)
Record run : Type := mkRun {
  stdout : list printed;
  status : Z;
  requested : list string;
}.

(** [func main()].  The arguments are the environment variable PR_NUMBER,
    the answer of [http.Get] to a URL (an error or a body) and the answer
    of the decoder to a body (an error, or the field [milestone], nil being
    [None]).  [exit] prints the error and ends the process with status 1. *)
Definition main (PR_NUMBER : string) (httpGet : string -> string + string)
    (decode : string -> string + option string) : run :=
  match Atoi PR_NUMBER with
  | None => mkRun [PrintError (ErrAtoi PR_NUMBER)] 1 []
  | Some pr =>
      let url := issueURL pr in
      match httpGet url with
      | inl err => mkRun [PrintError (ErrGet err)] 1 [url]
      | inr body =>
          match decode body with
          | inl err => mkRun [PrintError (ErrDecode err)] 1 [url]
          | inr None => mkRun [PrintError ErrMilestoneNotSet] 1 [url]
          | inr (Some _) => mkRun [PrintLine "Milestone check passed."] 0 [url]
          end
      end
  end.

End CheckMilestone.

(** ** contrib/net/http: the traced ServeMux and WrapHandler *)

Module NetHTTP.

Record request : Type := mkRequest {
  Method : string;
  URLPath : string;
}.

(** A span option: one of the configuration, or one of the two tags the
    handlers append, [tracer.Tag(ext.SpanKind, ext.SpanKindServer)] and
    [tracer.Tag(ext.Component, "net/http")]. *)
Inductive spanOpt : Type :=
| Configured (opt : Tracer.StartSpanOption)
| SpanKindServerTag
| ComponentTag.

Section handlers.
(** The type of the finish options, [ddtrace.FinishOption]. *)
Context {FinishOption : Type}.

Record config : Type := mkConfig {
  serviceName : string;
  spanOpts : list spanOpt;
  finishOpts : list FinishOption;
  ignoreRequest : request -> bool;
  resourceNamer : request -> string;
}.

(** [ServeConfig], the argument of [TraceAndServe]; a field that is not
    set is empty. *)
Record ServeConfig : Type := mkServeConfig {
  Service : string;
  Resource : string;
  FinishOpts : list FinishOption;
  SpanOpts : list spanOpt;
  Route : string;
}.

(** What a handler does with a request: it hands it to the wrapped handler
    as it is, or through [TraceAndServe]. *)
Inductive served : Type :=
| ServedPlain (r : request)
| TraceAndServe (r : request) (cfg : ServeConfig).

(** [func (mux *ServeMux) ServeHTTP(w, r)].  [routeOf] is the pattern
    [mux.Handler(r)] returns; the result is what is done with the request
    and [mux.cfg] after the call. *)
Definition ServeHTTP (routeOf : request -> string) (r : request) (cfg : config)
  : served * config :=
  if ignoreRequest cfg r then (ServedPlain r, cfg)
  else
    let route := routeOf r in
    let resource := resourceNamer cfg r in
    let resource :=
      if decide (resource = "") then Method r +:+ " " +:+ route else resource in
    let opts := (spanOpts cfg ++ [SpanKindServerTag]) ++ [ComponentTag] in
    (TraceAndServe r {| Service := serviceName cfg; Resource := resource;
                        FinishOpts := []; SpanOpts := opts; Route := route |},
     {| serviceName := serviceName cfg; spanOpts := opts;
        finishOpts := finishOpts cfg; ignoreRequest := ignoreRequest cfg;
        resourceNamer := resourceNamer cfg |}).

(** The requests a mux serves, one after the other. *)
Fixpoint serveAll (routeOf : request -> string) (rs : list request) (cfg : config)
  : list served * config :=
  match rs with
  | [] => ([], cfg)
  | r :: rest =>
      let '(out, cfg1) := ServeHTTP routeOf r cfg in
      let '(outs, cfg2) := serveAll routeOf rest cfg1 in
      (out :: outs, cfg2)
  end.

(** The variables the handler of [WrapHandler] closes over: the arguments
    [service] and [resource] and the configuration. *)
Record wrapper : Type := mkWrapper {
  wService : string;
  wResource : string;
  wConfig : config;
}.

(** The handler [WrapHandler] returns, on one request: what is done with
    the request, and the captured variables after the call. *)
Definition wrappedHandler (req : request) (w : wrapper) : served * wrapper :=
  let cfg := wConfig w in
  if ignoreRequest cfg req then (ServedPlain req, w)
  else
    let resource :=
      let r := resourceNamer cfg req in
      if decide (r <> "") then r else wResource w in
    let opts := (spanOpts cfg ++ [SpanKindServerTag]) ++ [ComponentTag] in
    (TraceAndServe req {| Service := wService w; Resource := resource;
                          FinishOpts := finishOpts cfg; SpanOpts := opts;
                          Route := "" |},
     {| wService := wService w; wResource := resource;
        wConfig := {| serviceName := serviceName cfg; spanOpts := opts;
                      finishOpts := finishOpts cfg;
                      ignoreRequest := ignoreRequest cfg;
                      resourceNamer := resourceNamer cfg |} |}).

Fixpoint handleAll (reqs : list request) (w : wrapper) : list served * wrapper :=
  match reqs with
  | [] => ([], w)
  | req :: rest =>
      let '(out, w1) := wrappedHandler req w in
      let '(outs, w2) := handleAll rest w1 in
      (out :: outs, w2)
  end.

(** The two tags, [n] times over. *)
Definition serverTags (n : nat) : list spanOpt :=
  mjoin (replicate n [SpanKindServerTag; ComponentTag]).

(** The requests of a list that are traced. *)
Definition tracedOf (cfg : config) (rs : list request) : list request :=
  List.filter (fun r => negb (ignoreRequest cfg r)) rs.

(** The last name the resource namer gave among the requests, or
    [resource] when it gave none. *)
Definition lastNamed (cfg : config) (resource : string) (rs : list request) : string :=
  fold_left (fun res r => if decide (resourceNamer cfg r <> "")
                          then resourceNamer cfg r else res) rs resource.
End handlers.

Arguments config FinishOption : clear implicits.
Arguments ServeConfig FinishOption : clear implicits.
Arguments served FinishOption : clear implicits.
Arguments wrapper FinishOption : clear implicits.

End NetHTTP.

(** * Theorems *)

Lemma int64_range z : - 2 ^ 63 <= int64 z < 2 ^ 63.
Proof. unfold int64. pose proof (Z.mod_pos_bound (z + 2 ^ 63) (2 ^ 64)). lia. Qed.

Lemma int64_small z : - 2 ^ 63 <= z < 2 ^ 63 -> int64 z = z.
Proof. intros Hz. unfold int64. rewrite Z.mod_small; lia. Qed.

Module RandSourceProofs.
Import RandSource.

Section with_source.
Context {S : Type} `{Source S}.

Lemma Lock_free (rs : randSource S) :
  locked rs = false ->
  Lock rs = Returned tt {| source := source rs; locked := true |}.
Proof. intros Hl. unfold Lock. now rewrite Hl. Qed.

Lemma Lock_held (rs : randSource S) :
  locked rs = true -> Lock rs = Blocked rs.
Proof. intros Hl. unfold Lock. now rewrite Hl. Qed.

(** C1: newRandSource returns a non-nil randSource and a nil error for
    every outcome of the cryptographic read; a failed read is logged and
    the generator is seeded from the wall clock. *)
Theorem newRandSource_always_succeeds (crypto : cryptoResult) (now : Z) :
  exists (rs : randSource S) (logged : list string),
    newRandSource crypto now = (Some rs, None, logged) /\
    locked rs = false /\
    match crypto with
    | CryptoOk n => source rs = NewSource (int64 n) /\ logged = []
    | CryptoErr err =>
        source rs = NewSource (int64 now) /\ logged = [seedLogLine err]
    end.
Proof.
  destruct crypto as [n | err]; cbn.
  - eexists _, _. repeat split.
  - eexists _, _. repeat split.
Qed.

Lemma Seed_outcome (fuel : nat) (seed : Z) (rs : randSource S) :
  has_returned (Seed fuel seed rs) = false /\
  source (final_state (Seed fuel seed rs)) = source rs.
Proof.
  revert rs. induction fuel as [| fuel IH]; intros rs; [now cbn |].
  cbn [Seed]. unfold mbind, outcome_bind.
  destruct (locked rs) eqn:Hl.
  - rewrite Lock_held by assumption. now cbn.
  - rewrite Lock_free by assumption.
    specialize (IH {| source := source rs; locked := true |}).
    destruct (Seed fuel seed _) as [[] st | st | st | st];
      cbn in IH |- *; destruct IH as [Hret Hsrc]; try discriminate; auto.
Qed.

(** C2: rs.Seed(s) never returns and never reseeds the source.  The body
    takes the mutex and calls itself; the inner call parks on the mutex
    the outer one holds, so with any recursion budget of two or more the
    call is blocked, holding the lock, with the generator untouched. *)
Theorem Seed_never_returns (fuel : nat) (seed : Z) (rs : randSource S) :
  has_returned (Seed fuel seed rs) = false /\
  source (final_state (Seed fuel seed rs)) = source rs /\
  Seed (2 + fuel) seed rs = Blocked {| source := source rs; locked := true |}.
Proof.
  destruct (Seed_outcome fuel seed rs) as [Hret Hsrc].
  repeat split; try assumption.
  cbn [Nat.add Seed]. unfold mbind, outcome_bind.
  destruct rs as [s [|]]; cbn; reflexivity.
Qed.

(** C8: every value Int63 returns is a non-negative 63-bit integer, and
    on a free mutex the call does return, releasing the mutex. *)
Theorem Int63_nonneg_63bit (contract : Int63_contract S) (rs : randSource S) :
  (forall n rs', Int63 rs = Returned n rs' -> 0 <= n < 2 ^ 63) /\
  (locked rs = false ->
   exists n rs', Int63 rs = Returned n rs' /\ locked rs' = false /\
                 (n, source rs') = src_Int63 (source rs)).
Proof.
  unfold Int63, mbind, outcome_bind, mret, outcome_ret.
  destruct rs as [s l]. destruct l; cbn.
  - split; [discriminate | discriminate].
  - unfold source_Int63; cbn.
    pose proof (contract s) as Hc.
    destruct (src_Int63 s) as [n s'] eqn:Hs; cbn in *.
    split.
    + intros n0 rs' [= <- <-]. exact Hc.
    + intros _. eexists _, _. repeat split.
Qed.

End with_source.

Lemma lcgSource_contract : Int63_contract Z.
Proof.
  intros s. cbn. unfold MaxInt64. split.
  - apply Z.land_nonneg. right. lia.
  - change (2 ^ 63 - 1) with (Z.ones 63).
    rewrite Z.land_ones by lia. apply Z.mod_pos_bound. lia.
Qed.

Lemma Int63_nonneg_63bit_witness :
  Int63_contract Z /\
  ((forall n rs', Int63 (mkRandSource 42 false) = Returned n rs' -> 0 <= n < 2 ^ 63) /\
   (locked (mkRandSource 42 false) = false ->
    exists n rs', Int63 (mkRandSource 42 false) = Returned n rs' /\
                  locked rs' = false /\
                  (n, source rs') = src_Int63 (source (mkRandSource 42 false)))).
Proof.
  split; [exact lcgSource_contract |].
  exact (Int63_nonneg_63bit lcgSource_contract (mkRandSource 42 false)).
Defined.

(** A call of Seed on a free mutex parks holding it, the generator as it
    was; Int63 on the same source returns and frees the mutex. *)
Example Seed_parks :
  Seed 5 3 (mkRandSource 42 false) = Blocked (mkRandSource 42 true).
Proof. reflexivity. Qed.

Example Int63_runs :
  has_returned (Int63 (mkRandSource 42 false)) = true /\
  locked (final_state (Int63 (mkRandSource 42 false))) = false /\
  has_returned (Int63 (mkRandSource 42 true)) = false.
Proof. repeat split. Qed.

End RandSourceProofs.

(** ** strconv *)

Lemma Atoi_Itoa (z : Z) : - 2 ^ 63 <= z < 2 ^ 63 -> Atoi (Itoa z) = Some z.
Proof.
  intros Hz. unfold Atoi, Itoa.
  assert (Hdigits :
    match NilZero.string_of_int (Z.to_int z) with
    | String "+"%char s' => Decimal.Pos <$> NilZero.uint_of_string s'
    | _ => NilZero.int_of_string (NilZero.string_of_int (Z.to_int z))
    end = Some (Z.to_int z)).
  { assert (Hisi : NilZero.int_of_string (NilZero.string_of_int (Z.to_int z))
                   = Some (Z.to_int z)).
    { apply NilZero.isi; destruct z as [| p | p]; cbn; try discriminate;
        intros [= Hnil]; revert Hnil; apply DecimalPos.Unsigned.to_uint_nonnil. }
    destruct z as [| p | p]; cbn in Hisi |- *; [reflexivity | | exact Hisi].
    destruct (Pos.to_uint p); cbn in Hisi |- *; exact Hisi. }
  rewrite Hdigits. cbn. rewrite DecimalZ.of_to.
  destruct (decide (- 2 ^ 63 <= z < 2 ^ 63)); [reflexivity | contradiction].
Qed.


Module TransportProofs.
Import Transport.

Section transport.
Variable StatusText : Z -> string.
Context {span : Type}.
Variable encodeTrace : list span -> string.

Lemma fold_push_count (traces : list (list span)) (p : payload) :
  count (fold_left (push encodeTrace) traces p)
  = count p + Z.of_nat (length traces).
Proof.
  revert p. induction traces as [| t traces IH]; intros p; cbn [fold_left length].
  - lia.
  - rewrite IH. cbn [push count]. lia.
Qed.

Lemma encode_count (traces : list (list span)) :
  count (encode encodeTrace traces) = Z.of_nat (length traces).
Proof. unfold encode. rewrite fold_push_count. reflexivity. Qed.

Lemma send_one_request (traceURL : string) (p : payload) (rt : recordingRoundTripper) :
  reqs (snd (send StatusText traceURL p rt)) = reqs rt ++ [traceRequest traceURL p].
Proof.
  unfold send, RoundTrip.
  destruct (client rt _) as [err | resp]; [reflexivity |].
  destruct (400 <=? _); reflexivity.
Qed.


(** C4: for a non-empty batch of traces, send issues exactly one request,
    to the trace endpoint and with the payload as its body, whose
    X-Datadog-Trace-Count header parses as a non-zero integer equal to the
    number of traces encoded. *)
Theorem trace_count_header
    (traceURL : string) (traces : list (list span)) (rt : recordingRoundTripper) :
  traces <> [] ->
  Z.of_nat (length traces) < 2 ^ 63 ->
  exists req header n,
    reqs (snd (send StatusText traceURL (encode encodeTrace traces) rt))
      = reqs rt ++ [req] /\
    URL req = traceURL /\
    ReqBody req = buf (encode encodeTrace traces) /\
    Header req !! traceCountHeader = Some header /\
    Atoi header = Some n /\
    n <> 0 /\
    n = Z.of_nat (length traces).
Proof.
  intros Hne Hlen.
  exists (traceRequest traceURL (encode encodeTrace traces)).
  exists (Itoa (Z.of_nat (length traces))), (Z.of_nat (length traces)).
  split; [apply send_one_request |].
  split; [reflexivity |]. split; [reflexivity |].
  split; [unfold traceRequest; cbn [Header]; rewrite encode_count;
          apply lookup_singleton_eq |].
  split; [apply Atoi_Itoa; lia |].
  split; [| reflexivity].
  destruct traces; [contradiction | cbn; lia].
Qed.
End transport.

(** The "bad" row of TestTransportResponse: status 400 with a body of 1002
    bytes gives the first 1000 bytes and the status text. *)
Example TestTransportResponse_bad (p : payload) :
  fst (send testStatusText "http://agent" p
         (mkRecorder [] (fun _ => RoundTripOk (mkResponse 400 (Repeat "X" 1002)))))
  = SendErr (Repeat "X" 1000 +:+ " (Status: Bad Request)").
Proof. vm_compute. reflexivity. Qed.

(** A status of 400 with an empty body gives the status text alone. *)
Example send_bad_request_empty_body (p : payload) :
  fst (send testStatusText "http://agent" p
         (mkRecorder [] (fun _ => RoundTripOk (mkResponse 400 ""))))
  = SendErr "Bad Request".
Proof. reflexivity. Qed.


(** The "ok" row: status 200 hands the body back. *)
Example TestTransportResponse_ok (p : payload) :
  fst (send testStatusText "http://agent" p
         (mkRecorder [] (fun _ => RoundTripOk (mkResponse 200 "Hello world!"))))
  = SendOk "Hello world!".
Proof. reflexivity. Qed.

Lemma trace_count_header_witness :
  [[tt]; [tt; tt]] <> [] /\
  Z.of_nat (length [[tt]; [tt; tt]]) < 2 ^ 63 /\
  exists req header n,
    reqs (snd (send testStatusText "http://agent/v0.4/traces"
                 (encode (fun _ => "t") [[tt]; [tt; tt]])
                 (mkRecorder [] (fun _ => RoundTripOk (mkResponse 200 "")))))
      = [] ++ [req] /\
    URL req = "http://agent/v0.4/traces" /\
    ReqBody req = buf (encode (fun _ => "t") [[tt]; [tt; tt]]) /\
    Header req !! traceCountHeader = Some header /\
    Atoi header = Some n /\
    n <> 0 /\
    n = Z.of_nat (length [[tt]; [tt; tt]]).
Proof.
  split; [discriminate |]. split; [cbn; lia |].
  apply (trace_count_header testStatusText (fun _ : list unit => "t")
           "http://agent/v0.4/traces" [[tt]; [tt; tt]]
           (mkRecorder [] (fun _ => RoundTripOk (mkResponse 200 "")))).
  - discriminate.
  - cbn; lia.
Defined.

Section resolve.
Variables defaultHostname defaultPort : string.

(** C5: an explicit agent address decides the URL whenever it is given;
    otherwise the environment host and port each replace their own
    component of the default host:port, and with neither set the default
    URL results. *)
Theorem resolve_precedence (explicit : option string) (env : environ) :
  agentURL (resolvedConfig defaultHostname defaultPort
              (WithAgentAddr <$> explicit) env)
  = match explicit with
    | Some addr => "http://" +:+ addr
    | None =>
        "http://" +:+
        (if decide (DD_AGENT_HOST env = "") then defaultHostname
         else DD_AGENT_HOST env) +:+ ":" +:+
        (if decide (DD_TRACE_AGENT_PORT env = "") then defaultPort
         else DD_TRACE_AGENT_PORT env)
    end
  /\ agentURL (resolvedConfig defaultHostname defaultPort None (mkEnviron "" ""))
     = defaultURL defaultHostname defaultPort.
Proof. destruct explicit; split; reflexivity. Qed.

(** The eight rows of TestResolveAgentAddr. *)
Example TestResolveAgentAddr_rows :
  let run opt host port :=
    agentURL (resolvedConfig defaultHostname defaultPort opt (mkEnviron host port)) in
  run None "" "" = defaultURL defaultHostname defaultPort /\
  run None "ip.local" "" = "http://ip.local:" +:+ defaultPort /\
  run None "" "1234" = "http://" +:+ defaultHostname +:+ ":1234" /\
  run None "ip.local" "1234" = "http://ip.local:1234" /\
  run (Some (WithAgentAddr "host:1243")) "" "" = "http://host:1243" /\
  run (Some (WithAgentAddr "ip.other:9876")) "ip.local" "" = "http://ip.other:9876" /\
  run (Some (WithAgentAddr "ip.other:1234")) "" "9876" = "http://ip.other:1234" /\
  run (Some (WithAgentAddr "ip.other:8888")) "ip.local" "1234" = "http://ip.other:8888".
Proof. cbn. repeat split; reflexivity. Qed.
End resolve.

End TransportProofs.

(** ** sort *)

Lemma string_compare_eq (a b : string) : String.compare a b = Eq <-> a = b.
Proof. exact (String_as_OT.cmp_eq a b). Qed.

Lemma string_compare_lt (a b : string) :
  String.compare a b = Lt <-> String_as_OT.lt a b.
Proof. exact (String_as_OT.cmp_lt a b). Qed.

Lemma string_leb_refl (a : string) : String.leb a a = true.
Proof.
  unfold String.leb. now rewrite (proj2 (string_compare_eq a a) eq_refl).
Qed.

Lemma string_leb_spec (a b : string) :
  String.leb a b = true <-> String_as_OT.lt a b \/ a = b.
Proof.
  unfold String.leb.
  destruct (String.compare a b) eqn:Hc.
  - apply string_compare_eq in Hc. tauto.
  - apply string_compare_lt in Hc. tauto.
  - split; [discriminate |].
    intros [Hlt | ->].
    + apply string_compare_lt in Hlt. congruence.
    + pose proof (proj2 (string_compare_eq b b) eq_refl). congruence.
Qed.

Lemma string_leb_trans (a b c : string) :
  String.leb a b = true -> String.leb b c = true -> String.leb a c = true.
Proof.
  rewrite !string_leb_spec.
  intros [Hab | ->] [Hbc | ->]; auto.
  left. eapply String_as_OT.lt_trans; eassumption.
Qed.

Lemma string_leb_false (a b : string) :
  String.leb a b = false -> String.leb b a = true.
Proof.
  intros Hab. destruct (String.leb_total a b) as [H | H]; congruence.
Qed.

Lemma searchLoop_spec (n : nat) (f : nat -> bool) (Hmono : monotone_upto n f) :
  forall fuel i j : nat,
    (j - i <= fuel)%nat -> (i <= j)%nat -> (j <= n)%nat ->
    (forall k, (k < i)%nat -> f k = false) ->
    (forall k, (j <= k)%nat -> (k < n)%nat -> f k = true) ->
    let r := searchLoop fuel f i j in
    (r <= n)%nat /\
    (forall k, (k < r)%nat -> f k = false) /\
    (forall k, (r <= k)%nat -> (k < n)%nat -> f k = true).
Proof.
  induction fuel as [| fuel IH]; intros i j Hfuel Hij Hjn Hlow Hhigh; cbn [searchLoop].
  - assert (i = j) as -> by lia. auto.
  - destruct (Nat.ltb_spec i j) as [Hlt | Hge].
    + pose proof (Nat.div_mod_eq (i + j) 2) as Hdiv.
      pose proof (Nat.mod_upper_bound (i + j) 2) as Hmod.
      set (h := ((i + j) / 2)%nat) in *.
      assert (i <= h /\ h < j)%nat as [Hih Hhj] by lia.
      destruct (f h) eqn:Hfh; cbn [negb].
      * apply IH; try lia; [exact Hlow |].
        intros k Hk Hkn. apply (Hmono h k); [lia | exact Hkn | exact Hfh].
      * apply IH; try lia; [| exact Hhigh].
        intros k Hk. destruct (f k) eqn:Hfk; [| reflexivity].
        rewrite <- Hfh. symmetry. apply (Hmono k h); [lia | lia | exact Hfk].
    + assert (i = j) as -> by lia. auto.
Qed.

Lemma Search_spec (n : nat) (f : nat -> bool) :
  monotone_upto n f ->
  (Search n f <= n)%nat /\
  (forall k, (k < Search n f)%nat -> f k = false) /\
  (forall k, (Search n f <= k)%nat -> (k < n)%nat -> f k = true).
Proof.
  intros Hmono. unfold Search.
  apply (searchLoop_spec n f Hmono n 0 n); lia.
Qed.

Lemma sorted_stringsb_sound (a : list string) :
  sorted_stringsb a = true -> sorted_strings a.
Proof.
  induction a as [| x a IH]; intros Hs i j Hij Hj; cbn in Hj; [lia |].
  cbn in Hs. apply andb_true_iff in Hs as [Hx Ha].
  destruct i as [| i], j as [| j]; cbn [nth]; try lia.
  - apply string_leb_refl.
  - rewrite forallb_forall in Hx. apply Hx. apply nth_In. lia.
  - apply IH; [exact Ha | lia | lia].
Qed.

Lemma SearchStrings_monotone (a : list string) (x : string) :
  sorted_strings a ->
  monotone_upto (length a) (fun i => string_ge (nth i a "") x).
Proof.
  intros Hs k k' Hkk' Hk'. unfold string_ge. intros Hx.
  eapply string_leb_trans; [exact Hx |]. now apply Hs.
Qed.

Lemma insertString_perm (x : string) (l : list string) :
  insertString x l ≡ₚ x :: l.
Proof.
  induction l as [| y l IH]; cbn; [reflexivity |].
  destruct (String.leb x y); [reflexivity |].
  rewrite IH. apply Permutation_swap.
Qed.

Lemma Strings_perm (l : list string) : Strings l ≡ₚ l.
Proof.
  induction l as [| x l IH]; cbn; [reflexivity |].
  rewrite insertString_perm. now rewrite IH.
Qed.

Module WafProofs.
Import Waf.

(** The search-and-compare test decides membership in a sorted table. *)
Lemma found_spec (table : list string) (addr : string) :
  sorted_strings table -> found table addr = true <-> addr ∈ table.
Proof.
  intros Hsorted. unfold found, SearchStrings.
  pose proof (Search_spec (length table) _
                (SearchStrings_monotone table addr Hsorted)) as (Hle & Hlow & Hhigh).
  set (r := Search (length table) _) in *.
  rewrite andb_true_iff, Nat.ltb_lt, String.eqb_eq. split.
  - intros [Hr Heq]. rewrite <- Heq. apply list_elem_of_In, nth_In. exact Hr.
  - intros Hin. apply list_elem_of_In, (In_nth _ _ ""%string) in Hin.
    destruct Hin as (k & Hk & Hnth).
    assert (Hrk : (r <= k)%nat).
    { destruct (Nat.le_gt_cases r k) as [Hok | Hbad]; [exact Hok |].
      specialize (Hlow k Hbad). cbn in Hlow. unfold string_ge in Hlow.
      rewrite Hnth, string_leb_refl in Hlow. discriminate. }
    assert (Hr : (r < length table)%nat) by lia.
    split; [exact Hr |].
    apply String.leb_antisym.
    + rewrite <- Hnth. apply Hsorted; [exact Hrk | exact Hk].
    + specialize (Hhigh r (Nat.le_refl r) Hr). exact Hhigh.
Qed.

Lemma httpAddresses_sorted : sorted_strings httpAddresses.
Proof. apply sorted_stringsb_sound. vm_compute. reflexivity. Qed.

Lemma grpcAddresses_sorted : sorted_strings grpcAddresses.
Proof. apply sorted_stringsb_sound. vm_compute. reflexivity. Qed.

Lemma found_http (addr : string) :
  found httpAddresses addr = true <-> addr ∈ httpAddressesDecl.
Proof.
  rewrite (found_spec _ _ httpAddresses_sorted).
  unfold httpAddresses. now rewrite Strings_perm.
Qed.

Lemma found_grpc (addr : string) :
  found grpcAddresses addr = true <-> addr ∈ grpcAddressesDecl.
Proof.
  rewrite (found_spec _ _ grpcAddresses_sorted).
  unfold grpcAddresses. now rewrite Strings_perm.
Qed.

(** No address is both an HTTP and a gRPC address. *)
Lemma http_grpc_disjoint (addr : string) :
  addr ∈ httpAddressesDecl -> addr ∈ grpcAddressesDecl -> False.
Proof.
  intros Hh Hg.
  assert (Hall : Forall (fun a => a ∉ grpcAddressesDecl) httpAddressesDecl).
  { compute_done. }
  rewrite Forall_forall in Hall. exact (Hall addr Hh Hg).
Qed.

Lemma classify_filters (ruleAddresses : list string) (acc : supported) :
  fold_left classify ruleAddresses acc =
  {| supportedHTTP := supportedHTTP acc ++ filter isHTTP ruleAddresses;
     supportedGRPC := supportedGRPC acc ++ filter isGRPC ruleAddresses;
     notSupported := notSupported acc ++ filter isOther ruleAddresses |}.
Proof.
  revert acc. induction ruleAddresses as [| addr l IH]; intros acc; cbn [fold_left].
  - rewrite !filter_nil, !app_nil_r. now destruct acc.
  - rewrite IH. unfold classify. rewrite !filter_cons.
    destruct (found httpAddresses addr) eqn:Hh.
    + apply found_http in Hh.
      assert (Hg : ¬ isGRPC addr) by (intros Hg; exact (http_grpc_disjoint _ Hh Hg)).
      assert (Ho : ¬ isOther addr) by (intros [Hn _]; exact (Hn Hh)).
      rewrite (decide_True (P := isHTTP addr)) by exact Hh.
      rewrite (decide_False (P := isGRPC addr)) by exact Hg.
      rewrite (decide_False (P := isOther addr)) by exact Ho.
      cbn [supportedHTTP supportedGRPC notSupported].
      now rewrite <- app_assoc.
    + assert (Hnh : ¬ isHTTP addr).
      { intros Hin. apply found_http in Hin. congruence. }
      rewrite (decide_False (P := isHTTP addr)) by exact Hnh.
      destruct (found grpcAddresses addr) eqn:Hg.
      * apply found_grpc in Hg.
        assert (Ho : ¬ isOther addr) by (intros [_ Hn]; exact (Hn Hg)).
        rewrite (decide_True (P := isGRPC addr)) by exact Hg.
        rewrite (decide_False (P := isOther addr)) by exact Ho.
        cbn [supportedHTTP supportedGRPC notSupported].
        now rewrite <- app_assoc.
      * assert (Hng : ¬ isGRPC addr).
        { intros Hin. apply found_grpc in Hin. congruence. }
        rewrite (decide_False (P := isGRPC addr)) by exact Hng.
        rewrite (decide_True (P := isOther addr)) by (split; assumption).
        cbn [supportedHTTP supportedGRPC notSupported].
        now rewrite <- app_assoc.
Qed.

Lemma three_way_perm (l : list string) :
  l ≡ₚ filter isHTTP l ++ filter isGRPC l ++ filter isOther l.
Proof.
  induction l as [| addr l IH]; [reflexivity |].
  rewrite !filter_cons.
  destruct (decide (isHTTP addr)) as [Hh | Hnh].
  - assert (Hg : ¬ isGRPC addr) by (intros Hg; exact (http_grpc_disjoint _ Hh Hg)).
    rewrite (decide_False (P := isGRPC addr)) by exact Hg.
    rewrite (decide_False (P := isOther addr)) by (intros [Hn _]; exact (Hn Hh)).
    cbn. now constructor.
  - destruct (decide (isGRPC addr)) as [Hg | Hng].
    + rewrite (decide_False (P := isOther addr)) by (intros [_ Hn]; exact (Hn Hg)).
      rewrite <- app_comm_cons, <- Permutation_middle. now constructor.
    + rewrite (decide_True (P := isOther addr)) by (split; assumption).
      rewrite app_assoc, <- Permutation_middle, <- app_assoc. now constructor.
Qed.

(** C9: supportedAddresses partitions its input.  Each result list is the
    input filtered, in input order, by one of three tests: being one of the
    seven HTTP addresses, being one of the two gRPC addresses, being
    neither.  The tests exclude each other and cover every address, so the
    three lists together are a rearrangement of the input. *)
Theorem supportedAddresses_partition (ruleAddresses : list string) :
  let r := supportedAddresses ruleAddresses in
  supportedHTTP r = filter (fun a => a ∈ httpAddressesDecl) ruleAddresses /\
  supportedGRPC r = filter (fun a => a ∈ grpcAddressesDecl) ruleAddresses /\
  notSupported r =
    filter (fun a => (a ∉ httpAddressesDecl) /\ (a ∉ grpcAddressesDecl))
      ruleAddresses /\
  ruleAddresses ≡ₚ supportedHTTP r ++ supportedGRPC r ++ notSupported r /\
  (forall a : string, ¬ (a ∈ httpAddressesDecl /\ a ∈ grpcAddressesDecl)) /\
  length httpAddressesDecl = 7%nat /\ NoDup httpAddressesDecl /\
  length grpcAddressesDecl = 2%nat /\ NoDup grpcAddressesDecl.
Proof.
  cbn zeta. unfold supportedAddresses. rewrite classify_filters.
  cbn [supportedHTTP supportedGRPC notSupported app].
  split; [reflexivity |]. split; [reflexivity |]. split; [reflexivity |].
  split; [apply three_way_perm |].
  split; [intros a [Hh Hg]; exact (http_grpc_disjoint a Hh Hg) |].
  split; [reflexivity |].
  split; [compute_done |].
  split; [reflexivity |].
  compute_done.
Qed.

Example supportedAddresses_mixed :
  supportedAddresses
    ["server.request.query"; "user.defined"; "grpc.server.request.message";
     "server.request.body"; "server.request.query"]
  = {| supportedHTTP := ["server.request.query"; "server.request.body";
                         "server.request.query"];
       supportedGRPC := ["grpc.server.request.message"];
       notSupported := ["user.defined"] |}.
Proof. vm_compute. reflexivity. Qed.

End WafProofs.

Module GraphqlProofs.
Import Tracer Graphql.

Section trace_query.
Context {QueryError : Type}.
Variable QueryError_Error : QueryError -> string.
Variable mint : nat -> list StartSpanOption -> SpanContext.


End trace_query.

Example finishError_three :
  finishError (fun e : string => e) ["boom"; "bang"; "crash"]
  = Some (Errorf "boom (and 2 more errors)").
Proof. reflexivity. Qed.

Example finishError_one :
  finishError (fun e : string => e) ["boom"] = Some (ofQueryError "boom").
Proof. reflexivity. Qed.

End GraphqlProofs.

Module SaramaProofs.
Import Tracer Sarama.

Local Open Scope nat_scope.

Section consumer.
Variable mint : nat -> list StartSpanOption -> SpanContext.
Variable Extract : headers -> option SpanContext.
Variable Inject : SpanContext -> headers -> headers.
Variable cfg : config.

Lemma consumeOne_run (msg : delivered ConsumerMessage) (st : consumerState) (d : nat) :
  demand st = S d ->
  let next := spanFor mint Extract cfg (nextIdent (cworld st)) msg.2 in
  consumeOne mint Extract Inject cfg msg st =
  Returned tt
    {| cworld :=
         {| nextIdent := S (nextIdent (cworld st));
            events :=
              events (cworld st)
              ++ [EvStart next; EvChan (SendMessage (msg.1, reinject Inject next msg.2))]
              ++ option_list ((fun h => EvFinish h None) <$> (ident <$> prev st)) |};
       prev := Some next;
       demand := d |}.
Proof.
  intros Hd. destruct st as [[n0 ev] po dem]. cbn [demand] in Hd. subst dem.
  unfold consumeOne, mbind, outcome_bind, startConsume, sendMessage,
    finishPrev, setPrev, StartSpan, Finish, record, spanFor.
  cbn [cworld prev demand nextIdent events fst snd].
  destruct po as [sp |]; cbn [cworld prev demand nextIdent events fmap
    option_fmap option_map option_list];
    rewrite <- ?app_assoc; cbn [app]; rewrite ?app_nil_r; reflexivity.
Qed.

Lemma rangeMessages_run (msgs : list (delivered ConsumerMessage)) :
  forall st : consumerState,
    length msgs <= demand st ->
    exists st',
      rangeMessages mint Extract Inject cfg msgs st = Returned tt st' /\
      events (cworld st') =
        events (cworld st)
        ++ rangeEvents mint Extract Inject cfg (ident <$> prev st)
             (nextIdent (cworld st)) msgs /\
      nextIdent (cworld st') = nextIdent (cworld st) + length msgs /\
      demand st' = demand st - length msgs /\
      ident <$> prev st' =
        lastIdent (ident <$> prev st) (nextIdent (cworld st)) (length msgs).
Proof.
  induction msgs as [| msg rest IH]; intros st Hd.
  - exists st. cbn. rewrite app_nil_r. repeat split; lia || reflexivity.
  - cbn [length] in Hd.
    destruct (demand st) as [| d] eqn:Hdem; [lia |].
    cbn [rangeMessages]. unfold mbind at 1. unfold outcome_bind.
    rewrite (consumeOne_run msg st d Hdem). cbn zeta.
    match goal with
    | |- context [rangeMessages _ _ _ _ rest ?s] =>
        destruct (IH s) as (st' & Hrun & Hev & Hid & Hdem' & Hprev)
    end.
    { cbn. lia. }
    exists st'. cbn [cworld prev demand nextIdent events fmap option_fmap
      option_map ident spanFor] in *.
    split; [exact Hrun |].
    rewrite Hev, Hid, Hdem', Hprev.
    cbn [rangeEvents length]. rewrite <- !app_assoc.
    repeat split; try lia.
    destruct rest; cbn [length lastIdent]; f_equal; lia.
Qed.

Lemma marks_rangeEvents (msgs : list (delivered ConsumerMessage)) :
  forall prev next,
    omap markOf (rangeEvents mint Extract Inject cfg prev next msgs) = rangeSchedule prev next (fst <$> msgs).
Proof.
  induction msgs as [| [p m] rest IH]; intros po next; [reflexivity |].
  cbn [rangeEvents fmap list_fmap fst rangeSchedule].
  rewrite !omap_app, IH. destruct po; reflexivity.
Qed.

Lemma sent_rangeEvents (msgs : list (delivered ConsumerMessage)) :
  forall prev next,
    payloadOf <$> sentMessages (rangeEvents mint Extract Inject cfg prev next msgs) = payloadOf <$> msgs.
Proof.
  induction msgs as [| [p m] rest IH]; intros po next; [reflexivity |].
  cbn [rangeEvents]. unfold sentMessages in *.
  rewrite !omap_app, !fmap_app, IH. destruct po; reflexivity.
Qed.

Lemma chanOps_rangeEvents (msgs : list (delivered ConsumerMessage)) :
  forall prev next,
    chanOps (rangeEvents mint Extract Inject cfg prev next msgs)
    = SendMessage <$> sentMessages (rangeEvents mint Extract Inject cfg prev next msgs).
Proof.
  induction msgs as [| [p m] rest IH]; intros po next; [reflexivity |].
  cbn [rangeEvents]. unfold sentMessages, chanOps in *.
  rewrite !omap_app, !fmap_app, IH. destruct po; reflexivity.
Qed.

Lemma started_rangeEvents (msgs : list (delivered ConsumerMessage)) :
  forall prev next,
    startedSpans (rangeEvents mint Extract Inject cfg prev next msgs) = seq next (length msgs).
Proof.
  induction msgs as [| [p m] rest IH]; intros po next; [reflexivity |].
  cbn [rangeEvents]. unfold startedSpans in *.
  rewrite !omap_app, IH. destruct po; reflexivity.
Qed.

Lemma finished_rangeEvents (msgs : list (delivered ConsumerMessage)) :
  forall prev next,
    finishedSpans (rangeEvents mint Extract Inject cfg prev next msgs)
    ++ option_list (lastIdent prev next (length msgs))
    = option_list prev ++ seq next (length msgs).
Proof.
  induction msgs as [| [p m] rest IH]; intros po next.
  - cbn. now rewrite app_nil_r.
  - cbn [rangeEvents length]. unfold finishedSpans in *.
    rewrite !omap_app, <- !app_assoc.
    replace (option_list (lastIdent po next (S (length rest))))
      with (option_list (lastIdent (Some next) (S next) (length rest))).
    + rewrite IH. destruct po; reflexivity.
    + destruct rest; cbn [length lastIdent]; do 2 f_equal; lia.
Qed.
(** C6: when the reader of the wrapped channel takes every message, the
    goroutine forwards the delivered messages, the same pointers in the
    same order with nothing but their headers rewritten, and then closes
    the channel; it starts one span per message and finishes each of them
    once: the span of a message when the next message has been forwarded,
    the last span just before the close. *)
Theorem relay_forwards_in_order
    (msgs : list (delivered ConsumerMessage)) (next readerReceives : nat) :
  length msgs <= readerReceives ->
  exists st : consumerState,
    relay mint Extract Inject cfg msgs (relayStart next readerReceives)
      = Returned tt st /\
    payloadOf <$> sentMessages (events (cworld st)) = payloadOf <$> msgs /\
    chanOps (events (cworld st))
      = (SendMessage <$> sentMessages (events (cworld st))) ++ [CloseMessages] /\
    startedSpans (events (cworld st)) = seq next (length msgs) /\
    finishedSpans (events (cworld st)) = seq next (length msgs) /\
    omap markOf (events (cworld st)) = relaySchedule next (fst <$> msgs).
Proof.
  intros Hd.
  destruct (rangeMessages_run msgs (relayStart next readerReceives) Hd)
    as (st1 & Hrun & Hev & _ & _ & Hprev).
  cbn [relayStart cworld prev demand nextIdent events fmap option_fmap
    option_map app] in Hev, Hprev.
  set (body := rangeEvents mint Extract Inject cfg None next msgs) in *.
  set (final := body ++ option_list ((fun h => EvFinish h None) <$>
                                     lastIdent None next (length msgs))
                ++ [EvChan CloseMessages]).
  assert (Hrelay : exists st,
    relay mint Extract Inject cfg msgs (relayStart next readerReceives)
      = Returned tt st /\ events (cworld st) = final).
  { unfold relay, mbind, outcome_bind. rewrite Hrun.
    unfold finishPrev, closeMessages, Finish, record.
    destruct st1 as [[n1 ev1] po1 d1].
    cbn [cworld prev demand nextIdent events] in *. subst ev1.
    subst final.
    destruct po1 as [sp |]; cbn [fmap option_fmap option_map] in Hprev;
      rewrite <- Hprev; eexists; (split; [reflexivity |]);
      cbn [cworld events option_list fmap option_fmap option_map].
    - now rewrite <- app_assoc.
    - reflexivity. }
  destruct Hrelay as (st & Hst & Hlog). exists st. split; [exact Hst |].
  rewrite Hlog. subst final.
  assert (Hsent : sentMessages (body ++ option_list ((fun h => EvFinish h None) <$>
                    lastIdent None next (length msgs)) ++ [EvChan CloseMessages])
                  = sentMessages body).
  { unfold sentMessages. rewrite !omap_app.
    destruct (lastIdent None next (length msgs)); cbn; now rewrite app_nil_r. }
  rewrite Hsent.
  split; [apply sent_rangeEvents |].
  split.
  { unfold chanOps. rewrite !omap_app.
    fold (chanOps body). subst body. rewrite chanOps_rangeEvents.
    destruct (lastIdent None next (length msgs)); reflexivity. }
  split.
  { unfold startedSpans. rewrite !omap_app.
    fold (startedSpans body). subst body. rewrite started_rangeEvents.
    destruct (lastIdent None next (length msgs)); cbn; now rewrite app_nil_r. }
  split.
  { assert (Hfin : finishedSpans body
                   ++ option_list (lastIdent None next (length msgs))
                   = seq next (length msgs))
      by exact (finished_rangeEvents msgs None next).
    rewrite <- Hfin.
    unfold finishedSpans. rewrite !omap_app.
    destruct (lastIdent None next (length msgs)); cbn;
      rewrite ?app_nil_r; reflexivity. }
  unfold relaySchedule. rewrite !omap_app.
  subst body. rewrite marks_rangeEvents. f_equal.
  destruct msgs as [| msg rest]; cbn; rewrite ?length_fmap; reflexivity.
Qed.

(** When the reader stops early the goroutine parks in its send: what
    was forwarded is a prefix of what was delivered, and the channel is
    not closed. *)
Lemma rangeMessages_prefix (msgs : list (delivered ConsumerMessage)) :
  forall st : consumerState,
    let out := rangeMessages mint Extract Inject cfg msgs st in
    exists new,
      events (cworld (final_state out)) = events (cworld st) ++ new /\
      payloadOf <$> sentMessages new
        = payloadOf <$> take (demand st) msgs /\
      (CloseMessages ∉ chanOps new) /\
      (demand st < length msgs -> has_returned out = false).
Proof.
  induction msgs as [| msg rest IH]; intros st; cbn zeta.
  - exists []. cbn. rewrite app_nil_r, take_nil.
    repeat split; [apply not_elem_of_nil | lia].
  - destruct (demand st) as [| d] eqn:Hdem.
    + eassert (Hstep : rangeMessages mint Extract Inject cfg (msg :: rest) st
                       = Blocked _).
      { cbn [rangeMessages]. unfold mbind at 1. unfold outcome_bind.
        unfold consumeOne, mbind, outcome_bind, startConsume, sendMessage, StartSpan.
        cbn [cworld prev demand nextIdent events]. rewrite Hdem. reflexivity. }
      rewrite Hstep.
      exists [EvStart (spanFor mint Extract cfg (nextIdent (cworld st)) msg.2)].
      cbn. repeat split. apply not_elem_of_nil.
    + eassert (Hstep : rangeMessages mint Extract Inject cfg (msg :: rest) st
                       = rangeMessages mint Extract Inject cfg rest _).
      { cbn [rangeMessages]. unfold mbind at 1. unfold outcome_bind.
        rewrite (consumeOne_run msg st d Hdem). reflexivity. }
      rewrite Hstep.
      match goal with
      | |- context [rangeMessages _ _ _ _ rest ?s] =>
          destruct (IH s) as (new & Hev & Hsent & Hclose & Hblocked)
      end.
      cbn [cworld prev demand nextIdent events] in Hev, Hsent, Hblocked.
      eexists. split; [rewrite Hev; rewrite <- !app_assoc; reflexivity |].
      unfold sentMessages, chanOps in *. rewrite !omap_app, !fmap_app, Hsent.
      split; [destruct (prev st); reflexivity |].
      split.
      * rewrite !elem_of_app. intros [Hin | [Hin | Hin]]; [| | exact (Hclose Hin)].
        -- cbn in Hin. apply list_elem_of_singleton in Hin. discriminate.
        -- destruct (prev st); cbn in Hin; apply elem_of_nil in Hin; exact Hin.
      * cbn [length]. intros Hlt. apply Hblocked. lia.
Qed.
End consumer.

Lemma relay_forwards_in_order_witness :
  let mint := countingMint in
  let Extract := headerExtract in
  let Inject := headerInject in
  let cfg := Sarama.mkConfig "kafka" "kafka" 0%Z in
  let msgs := [(7, mkConsumerMessage [] "orders" 0%Z 41%Z "k" "a");
               (9, mkConsumerMessage [] "orders" 0%Z 42%Z "k" "b")] in
  length msgs <= 2 /\
  exists st : consumerState,
    relay mint Extract Inject cfg msgs (relayStart 0 2) = Returned tt st /\
    payloadOf <$> sentMessages (events (cworld st)) = payloadOf <$> msgs /\
    chanOps (events (cworld st))
      = (SendMessage <$> sentMessages (events (cworld st))) ++ [CloseMessages] /\
    startedSpans (events (cworld st)) = seq 0 (length msgs) /\
    finishedSpans (events (cworld st)) = seq 0 (length msgs) /\
    omap markOf (events (cworld st)) = relaySchedule 0 (fst <$> msgs).
Proof.
  cbn zeta. split; [cbn; lia |].
  apply relay_forwards_in_order. cbn; lia.
Defined.

(** The schedule of the run above: the first span is finished once the
    second message is forwarded, the second before the close. *)
Example relaySchedule_two :
  relaySchedule 0 [7; 9]
  = [Forwarded 7; Forwarded 9; Finished 0; Finished 1; Closed].
Proof. reflexivity. Qed.

(** C6 as stated, for every run: it fails when the reader of the wrapped
    channel stops.  Two messages are delivered and the reader takes one: the
    goroutine is parked in its second send, having forwarded the first
    message only and started two spans; no span is finished and the channel
    is never closed. *)
Lemma relay_parks_without_reader :
  let cfg := Sarama.mkConfig "kafka" "kafka" 0%Z in
  let msgs := [(7, mkConsumerMessage [] "orders" 0%Z 41%Z "k" "a");
               (9, mkConsumerMessage [] "orders" 0%Z 42%Z "k" "b")] in
  let out := relay countingMint headerExtract headerInject cfg msgs (relayStart 0 1) in
  let log := events (cworld (final_state out)) in
  out = Blocked (final_state out) /\
  fst <$> sentMessages log = [7] /\
  chanOps log = SendMessage <$> sentMessages log /\
  startedSpans log = [0; 1] /\
  finishedSpans log = [] /\
  ((exists st : consumerState,
      out = Returned tt st /\
      payloadOf <$> sentMessages (events (cworld st)) = payloadOf <$> msgs /\
      chanOps (events (cworld st))
        = (SendMessage <$> sentMessages (events (cworld st))) ++ [CloseMessages] /\
      startedSpans (events (cworld st)) = seq 0 (length msgs) /\
      finishedSpans (events (cworld st)) = seq 0 (length msgs))
   -> False).
Proof.
  cbn zeta.
  split; [vm_compute; reflexivity |]. split; [vm_compute; reflexivity |].
  split; [vm_compute; reflexivity |]. split; [vm_compute; reflexivity |].
  split; [vm_compute; reflexivity |].
  intros (st & Hret & _). vm_compute in Hret. discriminate Hret.
Qed.

Lemma finishedSpans_snoc {E C} (l : list (event E C)) (e : event E C) :
  finishedSpans (l ++ [e])
  = finishedSpans l ++ match e with EvFinish h _ => [h] | _ => [] end.
Proof. unfold finishedSpans. rewrite omap_app. now destruct e. Qed.

Lemma startedSpans_snoc {E C} (l : list (event E C)) (e : event E C) :
  startedSpans (l ++ [e])
  = startedSpans l ++ match e with EvStart s => [ident s] | _ => [] end.
Proof. unfold startedSpans. rewrite omap_app. now destruct e. Qed.

Section producer.
Variable mint : nat -> list StartSpanOption -> SpanContext.
Variable Extract : headers -> option SpanContext.
Variable Inject : SpanContext -> headers -> headers.
Variable cfg : config.
Variable saramaCfg : saramaConfig.

#[local] Abbreviation turn := (Sarama.turn mint Extract Inject cfg saramaCfg).
#[local] Abbreviation produce := (Sarama.produce mint Extract Inject cfg saramaCfg).
#[local] Abbreviation startProducerSpan :=
  (Sarama.startProducerSpan mint Extract Inject cfg saramaCfg).

Ltac unfold_turn :=
  unfold Sarama.turn, Sarama.startProducerSpan, finishProducerSpan, getSpanContext, StartSpan, Finish, SetTag, record;
  cbn [pworld spans events nextIdent fst snd ident Context].

Ltac simpl_log :=
  cbn [pworld spans events nextIdent fst snd ident Context];
  rewrite ?finishedSpans_snoc, ?startedSpans_snoc, ?app_nil_r;
  cbn [ident].

(** A message on the input channel: one span is started; with success
    returns it is filed in the map under its span ID and not finished,
    without them it is finished at once and the map is left alone. *)
Lemma turn_input (msg : delivered ProducerMessage) (st : producerState) :
  let span := (startProducerSpan msg.2 (pworld st)).1.1 in
  let st' := (turn (FromInput msg) st).1 in
  ident span = nextIdent (pworld st) /\
  nextIdent (pworld st') = S (nextIdent (pworld st)) /\
  startedSpans (events (pworld st'))
    = startedSpans (events (pworld st)) ++ [ident span] /\
  (turn (FromInput msg) st).2 = true /\
  if ProducerReturnSuccesses saramaCfg then
    spans st' = <[SpanID (Context span) := span]> (spans st) /\
    finishedSpans (events (pworld st')) = finishedSpans (events (pworld st))
  else
    spans st' = spans st /\
    finishedSpans (events (pworld st'))
      = finishedSpans (events (pworld st)) ++ [ident span].
Proof.
  cbn zeta. unfold_turn.
  destruct (ProducerReturnSuccesses saramaCfg); simpl_log; repeat split.
Qed.



(** A success or an error that names no span in the map, and a receive
    from a closed channel, change neither the map nor the spans started
    and finished. *)
Lemma turn_no_match (c : selected) (st : producerState) :
  match c with
  | FromInput _ => False
  | FromSuccesses None | FromErrors None => True
  | FromSuccesses (Some msg) =>
      forall spanctx, getSpanContext Extract msg.2 = Some spanctx ->
                      spans st !! SpanID spanctx = None
  | FromErrors (Some err) =>
      forall spanctx, getSpanContext Extract (Msg err).2 = Some spanctx ->
                      spans st !! SpanID spanctx = None
  end ->
  let st' := (turn c st).1 in
  spans st' = spans st /\
  finishedSpans (events (pworld st')) = finishedSpans (events (pworld st)) /\
  startedSpans (events (pworld st')) = startedSpans (events (pworld st)) /\
  nextIdent (pworld st') = nextIdent (pworld st).
Proof.
  destruct c as [msg | [msg |] | [err |]]; intros Hno; cbn zeta;
    try contradiction; unfold_turn; try (repeat split; fail).
  - unfold getSpanContext in Hno. destruct (Extract (pHeaders msg.2)) as [ctx |].
    + rewrite (Hno ctx eq_refl). simpl_log. repeat split.
    + simpl_log. repeat split.
  - unfold getSpanContext in Hno. destruct (Extract (pHeaders (Msg err).2)) as [ctx |].
    + rewrite (Hno ctx eq_refl). simpl_log. repeat split.
    + simpl_log. repeat split.
Qed.



Lemma deferred_same (st : producerState) :
  spans (deferred st) = spans st /\
  finishedSpans (events (pworld (deferred st))) = finishedSpans (events (pworld st)) /\
  startedSpans (events (pworld (deferred st))) = startedSpans (events (pworld st)) /\
  nextIdent (pworld (deferred st)) = nextIdent (pworld st).
Proof.
  unfold deferred, record. cbn [pworld spans events nextIdent].
  rewrite !finishedSpans_snoc, !startedSpans_snoc, !app_nil_r. repeat split.
Qed.




End producer.

(** A run of the producer goroutine: a message goes in, the success for
    the message as it was forwarded comes back.  With success returns the
    span waits in the table and is finished by the success; without them it
    is finished before the success arrives. *)
Example produce_input_then_success :
  let waiting := exampleRun true [FromInput exampleMessage] in
  let done := exampleRun true [FromInput exampleMessage;
                               FromSuccesses (Some exampleForwarded)] in
  fst <$> map_to_list (spans waiting) = [1000%Z] /\
  finishedSpans (events (pworld waiting)) = [] /\
  map_to_list (spans done) = [] /\
  finishedSpans (events (pworld done)) = [0].
Proof. vm_compute. repeat split. Qed.

Example produce_without_success_returns :
  let done := exampleRun false [FromInput exampleMessage;
                                FromSuccesses (Some exampleForwarded)] in
  map_to_list (spans done) = [] /\
  finishedSpans (events (pworld done)) = [0] /\
  chanOps (events (pworld (exampleRun false [FromInput exampleMessage])))
  = [SendInput (7, mkProducerMessage
                     [(traceIDHeader, "1000"); (parentIDHeader, "1000")]
                     "orders" 0%Z 0%Z "k" "a")].
Proof. vm_compute. repeat split. Qed.

End SaramaProofs.

(** * Further properties *)

(** ** contrib/Shopify/sarama: the consumer goroutine and its reader *)

Module SaramaConsumerFacts.
Import Tracer Sarama SaramaProofs.

Local Open Scope nat_scope.

Section consumer.
Variable mint : nat -> list StartSpanOption -> SpanContext.
Variable Extract : headers -> option SpanContext.
Variable Inject : SpanContext -> headers -> headers.
Variable cfg : config.

(** The range loop with a reader that makes fewer receives than there are
    messages: the loop parks in the send of the first message the reader
    does not take, the span of that message already started. *)
Lemma rangeMessages_blocked (msgs : list (delivered ConsumerMessage)) :
  forall st : consumerState,
    demand st < length msgs ->
    exists (waiting : delivered ConsumerMessage) (st' : consumerState),
      msgs !! demand st = Some waiting /\
      rangeMessages mint Extract Inject cfg msgs st = Blocked st' /\
      events (cworld st') =
        events (cworld st)
        ++ rangeEvents mint Extract Inject cfg (ident <$> prev st)
             (nextIdent (cworld st)) (take (demand st) msgs)
        ++ [EvStart (spanFor mint Extract cfg
                       (nextIdent (cworld st) + demand st) waiting.2)].
Proof.
  induction msgs as [| msg rest IH]; intros st Hd; cbn [length] in Hd; [lia |].
  destruct (demand st) as [| d] eqn:Hdem.
  - exists msg. eexists. split; [reflexivity |].
    cbn [rangeMessages]. unfold mbind at 1. unfold outcome_bind.
    unfold consumeOne, mbind, outcome_bind, startConsume, sendMessage, StartSpan.
    cbn [cworld prev demand nextIdent events]. rewrite Hdem.
    split; [reflexivity |]. cbn. rewrite Nat.add_0_r. reflexivity.
  - eassert (Hstep : rangeMessages mint Extract Inject cfg (msg :: rest) st
                     = rangeMessages mint Extract Inject cfg rest _).
    { cbn [rangeMessages]. unfold mbind at 1. unfold outcome_bind.
      rewrite (consumeOne_run mint Extract Inject cfg msg st d Hdem). reflexivity. }
    rewrite Hstep.
    match goal with
    | |- context [rangeMessages _ _ _ _ rest ?s] =>
        destruct (IH s) as (waiting & st' & Hlook & Hrun & Hev)
    end.
    { cbn. lia. }
    cbn [cworld prev demand nextIdent events fmap option_fmap option_map
      ident spanFor] in Hlook, Hev.
    exists waiting, st'. split; [exact Hlook |]. split; [exact Hrun |].
    rewrite Hev. cbn [take rangeEvents]. rewrite <- !app_assoc.
    replace (S (nextIdent (cworld st)) + d) with (nextIdent (cworld st) + S d) by lia.
    reflexivity.
Qed.

(** X1: a reader that stops after taking [readerReceives] messages, fewer
    than were delivered.  The goroutine never returns and never closes the
    wrapped channel; what it forwarded is the first [readerReceives]
    messages; the span of the last message forwarded and the span of the
    message it could not forward stay open. *)
Theorem relay_reader_stops
    (msgs : list (delivered ConsumerMessage)) (next readerReceives : nat) :
  readerReceives < length msgs ->
  exists st : consumerState,
    relay mint Extract Inject cfg msgs (relayStart next readerReceives) = Blocked st /\
    payloadOf <$> sentMessages (events (cworld st))
      = payloadOf <$> take readerReceives msgs /\
    chanOps (events (cworld st)) = SendMessage <$> sentMessages (events (cworld st)) /\
    startedSpans (events (cworld st)) = seq next (S readerReceives) /\
    finishedSpans (events (cworld st)) = seq next (readerReceives - 1).
Proof.
  intros Hd.
  destruct (rangeMessages_blocked msgs (relayStart next readerReceives) Hd)
    as (waiting & st & _ & Hrun & Hev).
  cbn [relayStart cworld prev demand nextIdent events fmap option_fmap
    option_map app] in Hev.
  exists st. split.
  { unfold relay, mbind, outcome_bind. now rewrite Hrun. }
  rewrite Hev.
  set (body := rangeEvents mint Extract Inject cfg None next (take readerReceives msgs)).
  assert (Hlen : length (take readerReceives msgs) = readerReceives)
    by (apply length_take_le; lia).
  split.
  { unfold sentMessages. rewrite omap_app, fmap_app. cbn [omap fmap list_fmap].
    rewrite app_nil_r. apply (sent_rangeEvents mint Extract Inject cfg). }
  split.
  { unfold chanOps, sentMessages. rewrite !omap_app. cbn [omap].
    rewrite !app_nil_r.
    apply (chanOps_rangeEvents mint Extract Inject cfg). }
  split.
  { unfold startedSpans. rewrite omap_app. cbn [omap ident spanFor].
    fold (startedSpans body). subst body.
    rewrite (started_rangeEvents mint Extract Inject cfg), Hlen, seq_S.
    reflexivity. }
  unfold finishedSpans. rewrite omap_app. cbn [omap]. rewrite app_nil_r.
  fold (finishedSpans body).
  pose proof (finished_rangeEvents mint Extract Inject cfg
                (take readerReceives msgs) None next) as Hfin.
  fold body in Hfin. rewrite Hlen in Hfin. cbn [option_list app] in Hfin.
  destruct readerReceives as [| k]; cbn [lastIdent option_list] in Hfin.
  - rewrite app_nil_r in Hfin. exact Hfin.
  - rewrite seq_S in Hfin. apply app_inj_tail in Hfin as [Hfin _].
    replace (S k - 1) with k by lia. exact Hfin.
Qed.

(** The log of a run to completion. *)
Lemma relay_log (msgs : list (delivered ConsumerMessage)) (next readerReceives : nat) :
  length msgs <= readerReceives ->
  exists st : consumerState,
    relay mint Extract Inject cfg msgs (relayStart next readerReceives)
      = Returned tt st /\
    events (cworld st) =
      rangeEvents mint Extract Inject cfg None next msgs
      ++ option_list ((fun h => EvFinish h None) <$> lastIdent None next (length msgs))
      ++ [EvChan CloseMessages].
Proof.
  intros Hd.
  destruct (rangeMessages_run mint Extract Inject cfg msgs
              (relayStart next readerReceives) Hd)
    as (st1 & Hrun & Hev & _ & _ & Hprev).
  cbn [relayStart cworld prev demand nextIdent events fmap option_fmap
    option_map app] in Hev, Hprev.
  unfold relay, mbind, outcome_bind. rewrite Hrun.
  unfold finishPrev, closeMessages, Finish, record.
  destruct st1 as [[n1 ev1] po1 d1].
  cbn [cworld prev demand nextIdent events] in *. subst ev1.
  destruct po1 as [sp |]; cbn [fmap option_fmap option_map] in Hprev;
    rewrite <- Hprev; eexists; (split; [reflexivity |]);
    cbn [cworld events option_list fmap option_fmap option_map].
  - now rewrite <- app_assoc.
  - reflexivity.
Qed.

Lemma rangeEvents_lookup (msgs : list (delivered ConsumerMessage)) :
  forall prev next i msg,
    msgs !! i = Some msg ->
    sentMessages (rangeEvents mint Extract Inject cfg prev next msgs) !! i
      = Some (msg.1, reinject Inject (spanFor mint Extract cfg (next + i) msg.2) msg.2) /\
    EvStart (spanFor mint Extract cfg (next + i) msg.2)
      ∈ rangeEvents mint Extract Inject cfg prev next msgs.
Proof.
  induction msgs as [| m rest IH]; intros po next i msg Hi; [discriminate |].
  cbn [rangeEvents]. unfold sentMessages. rewrite !omap_app.
  assert (Hnone : omap (fun e : event Empty_set consumerOp =>
                          match e with EvChan (SendMessage x) => Some x | _ => None end)
                    (option_list ((fun h => EvFinish h None) <$> po)) = [])
    by (destruct po; reflexivity).
  rewrite Hnone. cbn [omap app]. destruct i as [| i].
  - injection Hi as ->. rewrite Nat.add_0_r. split; [reflexivity |].
    apply list_elem_of_here.
  - cbn [lookup list_lookup] in Hi |- *.
    destruct (IH (Some next) (S next) i msg Hi) as [Hsent Hstart].
    replace (next + S i) with (S next + i) by lia.
    split; [exact Hsent |].
    do 2 apply list_elem_of_further. apply elem_of_app. now right.
Qed.

Lemma ChildOf_consumeOpts (msg : ConsumerMessage) (ctx : SpanContext) :
  ChildOf ctx ∈ consumeOpts Extract cfg msg <-> Extract (cHeaders msg) = Some ctx.
Proof.
  unfold consumeOpts, analyticsOpts, childOfOpts.
  rewrite !elem_of_app, !elem_of_cons, elem_of_nil.
  split.
  - intros [Hfix | [Hrate | Hchild]].
    + repeat (destruct Hfix as [Hfix | Hfix]; [discriminate |]). contradiction.
    + destruct (negb (IsNaN (analyticsRate cfg))).
      * apply list_elem_of_singleton in Hrate. discriminate.
      * now apply elem_of_nil in Hrate.
    + destruct (Extract (cHeaders msg)) as [parent |].
      * apply list_elem_of_singleton in Hchild. congruence.
      * now apply elem_of_nil in Hchild.
  - intros ->. right. right. now apply list_elem_of_singleton.
Qed.

(** X2: in a run to completion, the i-th message goes out with the same
    pointer and with the context of the i-th span written to its headers
    by Inject.  That span is the i-th the goroutine starts, it is named
    after the topic, and it is a child of a context exactly when Extract
    finds that context in the headers the message arrived with. *)
Theorem relay_reinjects
    (msgs : list (delivered ConsumerMessage)) (next readerReceives : nat) :
  length msgs <= readerReceives ->
  exists st : consumerState,
    relay mint Extract Inject cfg msgs (relayStart next readerReceives)
      = Returned tt st /\
    forall i msg,
      msgs !! i = Some msg ->
      exists span : Span,
        EvStart span ∈ events (cworld st) /\
        ident span = next + i /\
        Tracer.operationName span = "kafka.consume" /\
        ResourceName ("Consume Topic " +:+ cTopic msg.2) ∈ startOptions span /\
        (forall parent, ChildOf parent ∈ startOptions span
                        <-> Extract (cHeaders msg.2) = Some parent) /\
        sentMessages (events (cworld st)) !! i
          = Some (msg.1, reinject Inject span msg.2) /\
        cHeaders (reinject Inject span msg.2)
          = Inject (Context span) (cHeaders msg.2).
Proof.
  intros Hd. destruct (relay_log msgs next readerReceives Hd) as (st & Hrun & Hlog).
  exists st. split; [exact Hrun |].
  intros i msg Hi.
  destruct (rangeEvents_lookup msgs None next i msg Hi) as [Hsent Hstart].
  exists (spanFor mint Extract cfg (next + i) msg.2). rewrite Hlog.
  split; [apply elem_of_app; now left |].
  split; [reflexivity |]. split; [reflexivity |].
  split.
  { cbn [spanFor startOptions]. unfold consumeOpts.
    apply elem_of_app. left. apply list_elem_of_further, list_elem_of_here. }
  split; [intros parent; apply ChildOf_consumeOpts |].
  split; [| reflexivity].
  unfold sentMessages in *. rewrite omap_app.
  apply lookup_app_l_Some. exact Hsent.
Qed.
End consumer.

Lemma relay_reader_stops_witness :
  let msgs := [(7, mkConsumerMessage [] "orders" 0%Z 41%Z "k" "a");
               (9, mkConsumerMessage [] "orders" 0%Z 42%Z "k" "b");
               (11, mkConsumerMessage [] "orders" 0%Z 43%Z "k" "c")] in
  1 < length msgs /\
  exists st : consumerState,
    relay countingMint headerExtract headerInject
      (Sarama.mkConfig "kafka" "kafka" 0%Z) msgs (relayStart 0 1) = Blocked st /\
    payloadOf <$> sentMessages (events (cworld st)) = payloadOf <$> take 1 msgs /\
    chanOps (events (cworld st)) = SendMessage <$> sentMessages (events (cworld st)) /\
    startedSpans (events (cworld st)) = seq 0 2 /\
    finishedSpans (events (cworld st)) = seq 0 (1 - 1).
Proof.
  cbn zeta. split; [cbn; lia |].
  apply relay_reader_stops. cbn; lia.
Defined.

Lemma relay_reinjects_witness :
  let msgs := [(7, mkConsumerMessage [] "orders" 0%Z 41%Z "k" "a");
               (9, mkConsumerMessage [(traceIDHeader, "5"); (parentIDHeader, "6")]
                     "orders" 0%Z 42%Z "k" "b")] in
  length msgs <= 2 /\
  exists st : consumerState,
    relay countingMint headerExtract headerInject
      (Sarama.mkConfig "kafka" "kafka" 0%Z) msgs (relayStart 0 2) = Returned tt st /\
    forall i msg,
      msgs !! i = Some msg ->
      exists span : Span,
        EvStart span ∈ events (cworld st) /\
        ident span = 0 + i /\
        Tracer.operationName span = "kafka.consume" /\
        ResourceName ("Consume Topic " +:+ cTopic msg.2) ∈ startOptions span /\
        (forall parent, ChildOf parent ∈ startOptions span
                        <-> headerExtract (cHeaders msg.2) = Some parent) /\
        sentMessages (events (cworld st)) !! i
          = Some (msg.1, reinject headerInject span msg.2) /\
        cHeaders (reinject headerInject span msg.2)
          = headerInject (Context span) (cHeaders msg.2).
Proof.
  cbn zeta. split; [cbn; lia |].
  apply relay_reinjects. cbn; lia.
Defined.

(** The second message above arrives with a context in its headers: its
    span continues that trace, and the message leaves with the identifiers
    of the span. *)
Example relay_child_of_incoming :
  sentMessages (events (cworld (final_state (
    relay countingMint headerExtract headerInject
      (Sarama.mkConfig "kafka" "kafka" 0%Z)
      [(9, mkConsumerMessage [(traceIDHeader, "5"); (parentIDHeader, "6")]
             "orders" 0%Z 42%Z "k" "b")]
      (relayStart 0 1)))))
  = [(9, mkConsumerMessage [(traceIDHeader, "5"); (parentIDHeader, "1000")]
           "orders" 0%Z 42%Z "k" "b")].
Proof. vm_compute. reflexivity. Qed.

End SaramaConsumerFacts.

(** ** contrib/Shopify/sarama: the asynchronous producer goroutine *)

Module SaramaProducerFacts.
Import Tracer Sarama SaramaProofs.

Local Open Scope nat_scope.

Lemma chanOps_snoc {E C} (l : list (event E C)) (e : event E C) :
  chanOps (l ++ [e]) = chanOps l ++ match e with EvChan op => [op] | _ => [] end.
Proof. unfold chanOps. rewrite omap_app. now destruct e. Qed.

Section producer.
Variable mint : nat -> list StartSpanOption -> SpanContext.
Variable Extract : headers -> option SpanContext.
Variable Inject : SpanContext -> headers -> headers.
Variable cfg : config.
Variable saramaCfg : saramaConfig.

#[local] Abbreviation turn := (Sarama.turn mint Extract Inject cfg saramaCfg).
#[local] Abbreviation produce := (Sarama.produce mint Extract Inject cfg saramaCfg).
#[local] Abbreviation startProducerSpan :=
  (Sarama.startProducerSpan mint Extract Inject cfg saramaCfg).

Ltac unfold_turn :=
  unfold Sarama.turn, Sarama.startProducerSpan, finishProducerSpan,
    getSpanContext, StartSpan, Finish, SetTag, record;
  cbn [pworld spans events nextIdent fst snd ident Context].

Ltac simpl_log :=
  cbn [pworld spans events nextIdent fst snd ident Context];
  rewrite ?finishedSpans_snoc, ?startedSpans_snoc, ?chanOps_snoc, ?app_nil_r;
  cbn [ident].

Lemma turn_continues (c : selected) (st : producerState) :
  (turn c st).2 = negb (isClose c) /\
  (isClose c = true -> (turn c st).1 = st).
Proof.
  destruct c as [msg | [msg |] | [err |]]; unfold_turn; cbn [isClose negb];
    try (split; [reflexivity | discriminate || reflexivity]).
  destruct (ProducerReturnSuccesses saramaCfg); split; reflexivity || discriminate.
Qed.

(** The one send of a turn. *)
Lemma turn_chanOps (c : selected) (st : producerState) :
  chanOps (events (pworld (turn c st).1))
  = chanOps (events (pworld st))
    ++ match c with
       | FromInput msg => [SendInput (msg.1, (startProducerSpan msg.2 (pworld st)).1.2)]
       | FromSuccesses (Some msg) => [SendSuccess msg]
       | FromErrors (Some err) => [SendError err]
       | _ => []
       end.
Proof.
  destruct c as [msg | [msg |] | [err |]]; unfold_turn;
    rewrite ?app_nil_r; try reflexivity.
  - destruct (ProducerReturnSuccesses saramaCfg); simpl_log; reflexivity.
  - destruct (Extract (pHeaders msg.2)) as [ctx |];
      [destruct (spans st !! SpanID ctx) |]; simpl_log; reflexivity.
  - destruct (Extract (pHeaders (Msg err).2)) as [ctx |];
      [destruct (spans st !! SpanID ctx) |]; simpl_log; reflexivity.
Qed.

Lemma deferred_chanOps (st : producerState) :
  chanOps (events (pworld (deferred st)))
  = chanOps (events (pworld st)) ++ [CloseErrors; CloseSuccesses; CloseInput].
Proof.
  unfold deferred, record. cbn [pworld events].
  rewrite !chanOps_snoc, <- !app_assoc. reflexivity.
Qed.

Lemma produce_split (cs : list selected) :
  forall st : producerState,
    (produce (beforeClose cs) st).2 = false /\
    produce cs st =
      if existsb isClose cs
      then (deferred (produce (beforeClose cs) st).1, true)
      else produce (beforeClose cs) st.
Proof.
  induction cs as [| c rest IH]; intros st; [split; reflexivity |].
  cbn [beforeClose existsb Sarama.produce].
  destruct (turn_continues c st) as [Hcont Hsame].
  destruct (isClose c) eqn:Hc; cbn [orb negb] in *.
  - destruct (turn c st) as [st' continue]. cbn [fst snd] in *. subst continue.
    rewrite (Hsame eq_refl). split; reflexivity.
  - cbn [Sarama.produce].
    destruct (turn c st) as [st' continue]. cbn [fst snd] in *. subst continue.
    apply IH.
Qed.

(** X3: the goroutine returns at the first receive from a closed channel
    of the wrapped producer, and only then.  On its way out it closes its
    errors, successes and input channels, in that order; it finishes no
    span and leaves the table as it is, so spans still in the table are
    never finished; the cases after the close are not served. *)
Theorem produce_stops_at_close (cs : list selected) (st : producerState) :
  let live := produce (beforeClose cs) st in
  let final := produce cs st in
  final.2 = existsb isClose cs /\
  live.2 = false /\
  spans final.1 = spans live.1 /\
  finishedSpans (events (pworld final.1)) = finishedSpans (events (pworld live.1)) /\
  startedSpans (events (pworld final.1)) = startedSpans (events (pworld live.1)) /\
  chanOps (events (pworld final.1))
    = chanOps (events (pworld live.1))
      ++ (if existsb isClose cs then [CloseErrors; CloseSuccesses; CloseInput] else []) /\
  closeOps (chanOps (events (pworld live.1))) = closeOps (chanOps (events (pworld st))).
Proof.
  cbn zeta. destruct (produce_split cs st) as [Hlive Hfinal].
  rewrite Hfinal.
  assert (Hnoclose : forall cs' st',
    closeOps (chanOps (events (pworld (produce (beforeClose cs') st').1)))
    = closeOps (chanOps (events (pworld st')))).
  { induction cs' as [| c rest IH]; intros st'; [reflexivity |].
    cbn [beforeClose]. destruct (isClose c) eqn:Hc; [reflexivity |].
    cbn [Sarama.produce].
    destruct (turn_continues c st') as [Hcont _]. rewrite Hc in Hcont.
    pose proof (turn_chanOps c st') as Hops.
    destruct (turn c st') as [st'' continue]. cbn [fst snd negb] in *. subst continue.
    rewrite IH, Hops. unfold closeOps. rewrite List.filter_app.
    destruct c as [msg | [msg |] | [err |]]; cbn; try discriminate;
      now rewrite app_nil_r. }
  destruct (existsb isClose cs); cbn [fst snd].
  - destruct (deferred_same (produce (beforeClose cs) st).1) as (Hs & Hf & Ha & _).
    rewrite Hs, Hf, Ha, deferred_chanOps. repeat split; auto.
  - rewrite app_nil_r. repeat split; auto.
Qed.

(** The send of a turn, read as what was received in it. *)
Lemma turn_sent (c : selected) (st : producerState) :
  let sent :=
    match c with
    | FromInput msg => [SendInput (msg.1, (startProducerSpan msg.2 (pworld st)).1.2)]
    | FromSuccesses (Some msg) => [SendSuccess msg]
    | FromErrors (Some err) => [SendError err]
    | _ => []
    end in
  sentSuccesses sent = receivedSuccesses [c] /\
  sentErrors sent = receivedErrors [c] /\
  producerPayloadOf <$> sentInputs sent = producerPayloadOf <$> receivedInputs [c] /\
  (VersionIsAtLeast_V0_11_0_0 saramaCfg = false -> sentInputs sent = receivedInputs [c]).
Proof.
  destruct c as [[ptr m] | [msg |] | [err |]]; cbn; repeat split.
  - unfold Sarama.startProducerSpan, StartSpan. cbn [fst snd].
    destruct (VersionIsAtLeast_V0_11_0_0 saramaCfg); reflexivity.
  - intros Hver. unfold Sarama.startProducerSpan, StartSpan. cbn [fst snd].
    now rewrite Hver.
Qed.

Lemma produce_chanOps (cs : list selected) :
  forall st : producerState,
    let ops := chanOps (events (pworld (produce (beforeClose cs) st).1)) in
    sentSuccesses ops
      = sentSuccesses (chanOps (events (pworld st))) ++ receivedSuccesses (beforeClose cs) /\
    sentErrors ops
      = sentErrors (chanOps (events (pworld st))) ++ receivedErrors (beforeClose cs) /\
    producerPayloadOf <$> sentInputs ops
      = (producerPayloadOf <$> sentInputs (chanOps (events (pworld st))))
        ++ (producerPayloadOf <$> receivedInputs (beforeClose cs)) /\
    (VersionIsAtLeast_V0_11_0_0 saramaCfg = false ->
     sentInputs ops
       = sentInputs (chanOps (events (pworld st))) ++ receivedInputs (beforeClose cs)).
Proof.
  induction cs as [| c rest IH]; intros st; cbn zeta.
  - cbn. rewrite !app_nil_r. repeat split.
  - cbn [beforeClose]. destruct (isClose c) eqn:Hc.
    { cbn. rewrite !app_nil_r. repeat split. }
    cbn [Sarama.produce].
    destruct (turn_continues c st) as [Hcont _]. rewrite Hc in Hcont.
    pose proof (turn_chanOps c st) as Hops.
    destruct (turn_sent c st) as (Ts & Te & Ti & Tv). cbn zeta in *.
    destruct (turn c st) as [st' continue]. cbn [fst snd negb] in *. subst continue.
    destruct (IH st') as (Hs & He & Hi & Hv). cbn zeta in *.
    rewrite Hs, He, Hi, Hops.
    change (c :: beforeClose rest) with ([c] ++ beforeClose rest).
    unfold sentSuccesses, sentErrors, sentInputs, receivedSuccesses,
      receivedErrors, receivedInputs in *.
    rewrite !omap_app, !fmap_app, <- !app_assoc.
    rewrite Ts, Te, Ti. repeat split.
    intros Hver. rewrite (Hv Hver), Hops, !omap_app, <- !app_assoc.
    now rewrite (Tv Hver).
Qed.

(** X4: the goroutine is a relay.  Until the wrapped producer's channels
    close, every success and every error it receives goes out unchanged and
    in order on its own successes and errors channels, and every message
    from its input goes to the wrapped producer's input, the same pointer
    with at most its headers rewritten; with a Kafka version below 0.11
    the messages go in untouched. *)
Theorem produce_forwards (cs : list selected) (next : nat) :
  let ops := chanOps (events (pworld (produce cs (produceStart next)).1)) in
  sentSuccesses ops = receivedSuccesses (beforeClose cs) /\
  sentErrors ops = receivedErrors (beforeClose cs) /\
  producerPayloadOf <$> sentInputs ops
    = producerPayloadOf <$> receivedInputs (beforeClose cs) /\
  (VersionIsAtLeast_V0_11_0_0 saramaCfg = false ->
   sentInputs ops = receivedInputs (beforeClose cs)).
Proof.
  cbn zeta.
  destruct (produce_split cs (produceStart next)) as [_ Hfinal].
  destruct (produce_chanOps cs (produceStart next)) as (Hs & He & Hi & Hv).
  cbn zeta in *. cbn [produceStart pworld events chanOps omap app] in Hs, He, Hi, Hv.
  assert (Hops : forall st,
    let ops := chanOps (events (pworld (deferred st))) in
    sentSuccesses ops = sentSuccesses (chanOps (events (pworld st))) /\
    sentErrors ops = sentErrors (chanOps (events (pworld st))) /\
    sentInputs ops = sentInputs (chanOps (events (pworld st)))).
  { intros st. cbn zeta. rewrite deferred_chanOps.
    unfold sentSuccesses, sentErrors, sentInputs. rewrite !omap_app.
    cbn. rewrite !app_nil_r. repeat split. }
  rewrite Hfinal. destruct (existsb isClose cs); cbn [fst].
  - destruct (Hops (produce (beforeClose cs) (produceStart next)).1) as (Hs' & He' & Hi').
    cbn zeta in *. rewrite Hs', He', Hi'. repeat split; assumption.
  - repeat split; assumption.
Qed.

#[local] Abbreviation spanOf msg st := (startProducerSpan (snd msg) (pworld st)).1.1.

(** X5: with a Kafka version below 0.11 nothing is written to the headers,
    so a message that came without a span context leaves without one, and
    the span filed for it is never found again: neither the success nor the
    error for that message finishes it or takes it out of the table. *)
Theorem pre_0_11_span_is_orphaned
    (msg msg' : delivered ProducerMessage) (err : ProducerError) (st : producerState) :
  VersionIsAtLeast_V0_11_0_0 saramaCfg = false ->
  ProducerReturnSuccesses saramaCfg = true ->
  Extract (pHeaders msg.2) = None ->
  pHeaders msg'.2 = pHeaders msg.2 ->
  pHeaders (Msg err).2 = pHeaders msg.2 ->
  let st1 := (turn (FromInput msg) st).1 in
  let onSuccess := (turn (FromSuccesses (Some msg')) st1).1 in
  let onError := (turn (FromErrors (Some err)) st1).1 in
  chanOps (events (pworld st1)) = chanOps (events (pworld st)) ++ [SendInput msg] /\
  spans st1 !! SpanID (Context (spanOf msg st)) = Some (spanOf msg st) /\
  spans onSuccess = spans st1 /\
  finishedSpans (events (pworld onSuccess)) = finishedSpans (events (pworld st)) /\
  spans onError = spans st1 /\
  finishedSpans (events (pworld onError)) = finishedSpans (events (pworld st)).
Proof.
  intros Hver Hrs Hctx Hsame Hsame'. cbn zeta.
  pose proof (turn_input mint Extract Inject cfg saramaCfg msg st)
    as (_ & _ & _ & _ & Hcase).
  cbn zeta in Hcase. rewrite Hrs in Hcase. destruct Hcase as [Hspans Hfin].
  pose proof (turn_chanOps (FromInput msg) st) as Hops.
  set (st1 := (turn (FromInput msg) st).1) in *.
  assert (Hno : forall ctx, Extract (pHeaders msg.2) = Some ctx ->
                            spans st1 !! SpanID ctx = None) by congruence.
  split.
  { rewrite Hops. f_equal. destruct msg as [ptr m].
    unfold Sarama.startProducerSpan, StartSpan. cbn [fst snd]. now rewrite Hver. }
  split; [rewrite Hspans; apply lookup_insert_eq |].
  destruct (turn_no_match mint Extract Inject cfg saramaCfg
              (FromSuccesses (Some msg')) st1) as (Hs & Hf & _).
  { unfold getSpanContext. rewrite Hsame. exact Hno. }
  destruct (turn_no_match mint Extract Inject cfg saramaCfg
              (FromErrors (Some err)) st1) as (Hs' & Hf' & _).
  { unfold getSpanContext. rewrite Hsame'. exact Hno. }
  cbn zeta in *. rewrite Hs, Hf, Hs', Hf', Hfin. repeat split.
Qed.

(** X6: from Kafka 0.11 on, with success returns and a carrier that reads
    back what it wrote, the span of a message is found again by the success
    for that message: in two turns the span is started, the message goes in
    with the span's context in its headers, the span gets the partition and
    offset of the success, is finished without error, the success goes out,
    and the entry is gone from the table. *)
Theorem input_then_success
    (msg msg' : delivered ProducerMessage) (st : producerState) :
  VersionIsAtLeast_V0_11_0_0 saramaCfg = true ->
  ProducerReturnSuccesses saramaCfg = true ->
  Extract (Inject (Context (spanOf msg st)) (pHeaders msg.2))
    = Some (Context (spanOf msg st)) ->
  pHeaders msg'.2 = Inject (Context (spanOf msg st)) (pHeaders msg.2) ->
  let span := spanOf msg st in
  let st1 := (turn (FromInput msg) st).1 in
  let st2 := (turn (FromSuccesses (Some msg')) st1).1 in
  events (pworld st2)
    = events (pworld st)
      ++ [EvStart span;
          EvChan (SendInput
                    (msg.1, withHeaders (Inject (Context span) (pHeaders msg.2)) msg.2));
          EvSetTag (ident span) (Key "partition") (VInt (pPartition msg'.2));
          EvSetTag (ident span) (Key "offset") (VInt (pOffset msg'.2));
          EvFinish (ident span) None;
          EvChan (SendSuccess msg')] /\
  spans st2 = delete (SpanID (Context span)) (spans st).
Proof.
  intros Hver Hrs Hlaw Hhdr. cbn zeta.
  unfold Sarama.turn at 2. unfold_turn. rewrite Hver, Hrs.
  unfold Sarama.turn. unfold_turn.
  unfold Sarama.startProducerSpan, StartSpan in Hlaw, Hhdr.
  cbn [fst snd Context] in Hlaw, Hhdr.
  rewrite Hhdr, Hlaw. cbn [SpanID Context]. rewrite lookup_insert_eq.
  cbn [pworld spans events nextIdent]. rewrite delete_insert_eq.
  split; [| reflexivity].
  rewrite <- !app_assoc. reflexivity.
Qed.
End producer.

Lemma pre_0_11_span_is_orphaned_witness :
  let saramaCfg := mkSaramaConfig false true in
  let cfg := Sarama.mkConfig "kafka" "kafka" 9221120237041090560%Z in
  let turn := Sarama.turn countingMint headerExtract headerInject cfg saramaCfg in
  let msg := exampleMessage in
  let err := mkProducerError exampleMessage "broker down" in
  let st := produceStart 0 in
  let span := (Sarama.startProducerSpan countingMint headerExtract headerInject
                 cfg saramaCfg msg.2 (pworld st)).1.1 in
  VersionIsAtLeast_V0_11_0_0 saramaCfg = false /\
  ProducerReturnSuccesses saramaCfg = true /\
  headerExtract (pHeaders msg.2) = None /\
  let st1 := (turn (FromInput msg) st).1 in
  let onSuccess := (turn (FromSuccesses (Some msg)) st1).1 in
  let onError := (turn (FromErrors (Some err)) st1).1 in
  chanOps (events (pworld st1)) = chanOps (events (pworld st)) ++ [SendInput msg] /\
  spans st1 !! SpanID (Context span) = Some span /\
  spans onSuccess = spans st1 /\
  finishedSpans (events (pworld onSuccess)) = finishedSpans (events (pworld st)) /\
  spans onError = spans st1 /\
  finishedSpans (events (pworld onError)) = finishedSpans (events (pworld st)).
Proof.
  cbn zeta. split; [reflexivity |]. split; [reflexivity |]. split; [reflexivity |].
  apply (pre_0_11_span_is_orphaned countingMint headerExtract headerInject
           (Sarama.mkConfig "kafka" "kafka" 9221120237041090560%Z)
           (mkSaramaConfig false true) exampleMessage exampleMessage
           (mkProducerError exampleMessage "broker down") (produceStart 0));
    reflexivity.
Defined.

Lemma input_then_success_witness :
  let saramaCfg := mkSaramaConfig true true in
  let cfg := Sarama.mkConfig "kafka" "kafka" 9221120237041090560%Z in
  let turn := Sarama.turn countingMint headerExtract headerInject cfg saramaCfg in
  let msg := exampleMessage in
  let msg' := exampleForwarded in
  let st := produceStart 0 in
  let span := (Sarama.startProducerSpan countingMint headerExtract headerInject
                 cfg saramaCfg msg.2 (pworld st)).1.1 in
  VersionIsAtLeast_V0_11_0_0 saramaCfg = true /\
  ProducerReturnSuccesses saramaCfg = true /\
  headerExtract (headerInject (Context span) (pHeaders msg.2)) = Some (Context span) /\
  pHeaders msg'.2 = headerInject (Context span) (pHeaders msg.2) /\
  let st1 := (turn (FromInput msg) st).1 in
  let st2 := (turn (FromSuccesses (Some msg')) st1).1 in
  events (pworld st2)
    = events (pworld st)
      ++ [EvStart span;
          EvChan (SendInput
                    (msg.1, withHeaders (headerInject (Context span) (pHeaders msg.2)) msg.2));
          EvSetTag (ident span) (Key "partition") (VInt (pPartition msg'.2));
          EvSetTag (ident span) (Key "offset") (VInt (pOffset msg'.2));
          EvFinish (ident span) None;
          EvChan (SendSuccess msg')] /\
  spans st2 = delete (SpanID (Context span)) (spans st).
Proof.
  cbn zeta. split; [reflexivity |]. split; [reflexivity |].
  split; [vm_compute; reflexivity |]. split; [vm_compute; reflexivity |].
  apply (input_then_success countingMint headerExtract headerInject
           (Sarama.mkConfig "kafka" "kafka" 9221120237041090560%Z)
           (mkSaramaConfig true true) exampleMessage exampleForwarded (produceStart 0));
    (reflexivity || (vm_compute; reflexivity)).
Defined.

End SaramaProducerFacts.

(** ** contrib/Shopify/sarama: the synchronous producer *)

Module SaramaSyncFacts.
Import Tracer Sarama Sarama.Sync.

Local Open Scope nat_scope.

Section sync_producer.
Context {E : Type}.
Variable mint : nat -> list StartSpanOption -> SpanContext.
Variable Extract : headers -> option SpanContext.
Variable Inject : SpanContext -> headers -> headers.
Variable cfg : config.
Variable versionIsAtLeast_V0_11_0_0 : bool.
Variable underlyingSendMessages :
  list nat -> (nat -> ProducerMessage) -> option E * (nat -> ProducerMessage).

#[local] Abbreviation startAll :=
  (Sync.startAll (E := E) mint Extract Inject cfg versionIsAtLeast_V0_11_0_0).
#[local] Abbreviation SendMessages :=
  (Sync.SendMessages mint Extract Inject cfg versionIsAtLeast_V0_11_0_0
     underlyingSendMessages).

(** The three events of [finishProducerSpan]. *)
#[local] Abbreviation finishEvents h err :=
  (fun (span : Span) (msg : nat) =>
     [EvSetTag (E := E) (C := syncCall) (ident span) (Key "partition")
        (VInt (pPartition (h msg)));
      EvSetTag (ident span) (Key "offset") (VInt (pOffset (h msg)));
      EvFinish (ident span) err]).

Lemma startAll_log (msgs : list nat) :
  forall st : syncState E,
    events (sworld (startAll msgs st).2)
      = events (sworld st) ++ (EvStart <$> (startAll msgs st).1) /\
    ident <$> (startAll msgs st).1 = seq (nextIdent (sworld st)) (length msgs) /\
    length (startAll msgs st).1 = length msgs.
Proof.
  induction msgs as [| msg rest IH]; intros st.
  - cbn. now rewrite app_nil_r.
  - cbn [Sync.startAll]. unfold Sync.startProducerSpan, StartSpan.
    cbn [sworld sheap].
    match goal with
    | |- context [Sync.startAll _ _ _ _ _ rest ?s] =>
        destruct (IH s) as (Hev & Hid & Hlen);
        destruct (Sync.startAll mint Extract Inject cfg
                    versionIsAtLeast_V0_11_0_0 rest s) as [spans st2]
    end.
    cbn [fst snd sworld events nextIdent] in *.
    cbn [fmap list_fmap length seq ident].
    rewrite Hev, Hid, Hlen, <- app_assoc. repeat split.
Qed.

Lemma finishAll_log (spans : list Span) :
  forall (msgs : list nat) (err : option E) (h : nat -> ProducerMessage)
         (w : tracer E syncCall),
    events (finishAll spans msgs err h w)
      = events w ++ mjoin (zip_with (finishEvents h err) spans msgs) /\
    nextIdent (finishAll spans msgs err h w) = nextIdent w.
Proof.
  induction spans as [| span spans IH]; intros msgs err h w.
  - cbn. now rewrite app_nil_r.
  - destruct msgs as [| msg msgs]; [cbn; now rewrite app_nil_r |].
    cbn [finishAll zip_with]. destruct (IH msgs err h
      (Sync.finishProducerSpan span (pPartition (h msg)) (pOffset (h msg)) err w))
      as [Hev Hn].
    rewrite Hev, Hn. unfold Sync.finishProducerSpan, Finish, SetTag, record.
    cbn [events nextIdent mjoin list_join]. rewrite <- !app_assoc. split; reflexivity.
Qed.

(** X7: SendMessages traces every message of the batch around the one
    call of the wrapped producer.  One span per message is started, in
    order, before the call; after it every span is tagged with the
    partition and offset its message then has and is finished, in the same
    order, and each of them with the error of the whole call, which is
    also what SendMessages returns. *)
Theorem SendMessages_traces_each (msgs : list nat) (st : syncState E) :
  let err := (SendMessages msgs st).1 in
  let st' := (SendMessages msgs st).2 in
  exists spans : list Span,
    ident <$> spans = seq (nextIdent (sworld st)) (length msgs) /\
    events (sworld st')
      = events (sworld st)
        ++ (EvStart <$> spans)
        ++ [EvChan (CallSendMessages msgs)]
        ++ mjoin (zip_with (finishEvents (sheap st') err) spans msgs) /\
    finishedSpans (events (sworld st'))
      = finishedSpans (events (sworld st)) ++ (ident <$> spans) /\
    finishErrors (mjoin (zip_with (finishEvents (sheap st') err) spans msgs))
      = replicate (length msgs) err /\
    (err, sheap st') = underlyingSendMessages msgs (sheap (startAll msgs st).2).
Proof.
  cbn zeta. unfold Sync.SendMessages.
  destruct (startAll_log msgs st) as (Hev & Hid & Hlen).
  destruct (startAll msgs st) as [spans st1]. cbn [fst snd] in *.
  destruct (underlyingSendMessages msgs (sheap st1)) as [err h].
  cbn [fst snd sworld sheap].
  destruct (finishAll_log spans msgs err h
              (record (EvChan (CallSendMessages msgs)) (sworld st1))) as [Hfin _].
  exists spans. split; [exact Hid |].
  rewrite Hfin. unfold record. cbn [events]. rewrite Hev, <- !app_assoc.
  split; [reflexivity |].
  assert (Hproj : forall (ss : list Span) (ms : list nat),
            length ss = length ms ->
            finishedSpans (mjoin (zip_with (finishEvents h err) ss ms)) = ident <$> ss /\
            finishErrors (mjoin (zip_with (finishEvents h err) ss ms))
              = replicate (length ms) err).
  { induction ss as [| s ss IH]; intros [| m ms] Hl; try discriminate; [now split |].
    injection Hl as Hl. destruct (IH ms Hl) as [IHf IHe].
    unfold finishedSpans, finishErrors, mjoin in *. cbn [zip_with list_join].
    unfold mjoin. rewrite !omap_app, IHf, IHe. split; reflexivity. }
  destruct (Hproj spans msgs Hlen) as [Hf He].
  split; [| split; [exact He | reflexivity]].
  unfold finishedSpans in *. rewrite !omap_app, Hf.
  assert (Hstarts : omap (fun e : event E syncCall =>
                            match e with EvFinish h0 _ => Some h0 | _ => None end)
                      (EvStart <$> spans) = []).
  { clear. induction spans as [| s ss IH]; [reflexivity | exact IH]. }
  rewrite Hstarts. reflexivity.
Qed.
End sync_producer.

(** A batch of two that fails: both spans carry the error. *)
Example SendMessages_failed_batch :
  let heap := fun q : nat => mkProducerMessage [] "orders" 0%Z 0%Z "k" "v" in
  let failing := fun (_ : list nat) (h : nat -> ProducerMessage) =>
                   (Some "kafka: not enough replicas"%string, h) in
  finishErrors (events (sworld (Sync.SendMessages countingMint headerExtract
     headerInject (Sarama.mkConfig "kafka" "kafka" 0%Z) true failing [3; 4]
     (mkSyncState (mkTracer 0 []) heap)).2))
  = [Some "kafka: not enough replicas"%string; Some "kafka: not enough replicas"%string].
Proof. reflexivity. Qed.

End SaramaSyncFacts.

(** ** contrib/graph-gophers/graphql-go: field spans *)

Module GraphqlFieldFacts.
Import Tracer Graphql.

Section trace_field.
Context {QueryError : Type}.
Variable mint : nat -> list StartSpanOption -> SpanContext.

(** X8: TraceField leaves trivial fields alone when omitTrivial is set: no
    span is started and the finish function does nothing.  For every other
    field it starts one span named graphql.field, tagged with the field and
    type names, and the finish function finishes that span, with the query
    error when it is given one and with no error for a nil pointer.  The
    analytics rate is a tag of the span exactly when it is not NaN. *)
Theorem TraceField_spans
    (cfg : config) (omitTrivial trivial : bool) (typeName fieldName : string)
    (t : tracer (error (QueryError := QueryError)) Empty_set) :
  let finish := (TraceField mint cfg omitTrivial typeName fieldName trivial t).1 in
  let t' := (TraceField mint cfg omitTrivial typeName fieldName trivial t).2 in
  if omitTrivial && trivial then
    t' = t /\ forall err w, finish err w = w
  else
    exists span : Span,
      events t' = events t ++ [EvStart span] /\
      ident span = nextIdent t /\
      Tracer.operationName span = "graphql.field" /\
      Tag (Key tagGraphqlField) (VString fieldName) ∈ startOptions span /\
      Tag (Key tagGraphqlType) (VString typeName) ∈ startOptions span /\
      (Tag (ExtKey EventSampleRate) (VFloat (analyticsRate cfg)) ∈ startOptions span
       <-> IsNaN (analyticsRate cfg) = false) /\
      forall (err : option QueryError) (w : tracer error Empty_set),
        events (finish err w) = events w ++ [EvFinish (ident span) (ofQueryError <$> err)].
Proof.
  cbn zeta. unfold TraceField.
  destruct (omitTrivial && trivial); [split; reflexivity |].
  unfold StartSpan. cbn [fst snd events].
  eexists. split; [reflexivity |]. split; [reflexivity |]. split; [reflexivity |].
  cbn [startOptions].
  destruct (IsNaN (analyticsRate cfg)); cbn [negb].
  - repeat split; try (intros [|]; reflexivity).
    + apply list_elem_of_further, list_elem_of_here.
    + do 2 apply list_elem_of_further. apply list_elem_of_here.
    + intros Hin. repeat (apply elem_of_cons in Hin as [Hin | Hin]; [discriminate |]).
      now apply elem_of_nil in Hin.
    + discriminate.
  - repeat split; try (intros [|]; reflexivity).
    + apply elem_of_app. left. apply list_elem_of_further, list_elem_of_here.
    + apply elem_of_app. left. do 2 apply list_elem_of_further. apply list_elem_of_here.
    + intros _. apply elem_of_app. right. apply list_elem_of_here.
Qed.
End trace_field.

End GraphqlFieldFacts.

(** ** internal/appsec: registering the WAF and its listeners *)

Module WafFacts.
Import Waf WafProofs.

Lemma supportedAddresses_filters (ruleAddresses : list string) :
  supportedHTTP (supportedAddresses ruleAddresses) = filter isHTTP ruleAddresses /\
  supportedGRPC (supportedAddresses ruleAddresses) = filter isGRPC ruleAddresses /\
  notSupported (supportedAddresses ruleAddresses) = filter isOther ruleAddresses.
Proof.
  unfold supportedAddresses. rewrite classify_filters. repeat split.
Qed.

Lemma length_zero_nil {A} (l : list A) : (length l =? 0)%nat = true <-> l = [].
Proof. destruct l; cbn; split; congruence. Qed.

Lemma length_pos_nil {A} (l : list A) : (0 <? length l)%nat = false <-> l = [].
Proof. destruct l; cbn; split; congruence. Qed.

(** X9: registerWAF fails when the health check fails, when no handle can
    be made, and when none of the rule's addresses is one of the nine the
    listeners support; in the last case the handle it made is closed again
    before it returns.  Otherwise it succeeds with the handle open, having
    registered an HTTP listener for the HTTP addresses of the rule if there
    are any, and a gRPC listener likewise, each with exactly those
    addresses in rule order.  The function it returns unregisters what was
    registered and closes the handle last. *)
Theorem registerWAF_outcome
    (health : option string) (newHandle : string + list string)
    (rcBlocking : option string) :
  let did := (registerWAF health newHandle rcBlocking).2 in
  match (registerWAF health newHandle rcBlocking).1 with
  | inl err =>
      match health, newHandle with
      | Some e, _ => err = ErrHealth e /\ did = []
      | None, inl e => err = ErrNewHandle e /\ did = []
      | None, inr ruleAddresses =>
          Forall isOther ruleAddresses /\
          err = (if decide (ruleAddresses = []) then ErrNoAddresses
                 else ErrNotSupported ruleAddresses) /\
          did = [NewHandle; CloseHandle]
      end
  | inr unregister =>
      exists ruleAddresses,
        health = None /\ newHandle = inr ruleAddresses /\
        Exists (fun addr => isHTTP addr \/ isGRPC addr) ruleAddresses /\
        (CloseHandle ∉ did) /\
        (forall l, RegisterHTTP l ∈ did <-> l = filter isHTTP ruleAddresses /\ l <> []) /\
        (forall l, RegisterGRPC l ∈ did <-> l = filter isGRPC ruleAddresses /\ l <> []) /\
        unregister
          = (if decide (filter isHTTP ruleAddresses = []) then [] else [UnregisterHTTP])
            ++ (if decide (filter isGRPC ruleAddresses = []) then [] else [UnregisterGRPC])
            ++ [CloseHandle]
  end.
Proof.
  cbn zeta. unfold registerWAF.
  destruct health as [e |]; [cbn; now split |].
  destruct newHandle as [e | ruleAddresses]; [cbn; now split |].
  destruct (supportedAddresses_filters ruleAddresses) as (Hh & Hg & Hn).
  destruct (length ruleAddresses =? 0)%nat eqn:Hlen.
  { apply length_zero_nil in Hlen. subst. cbn. repeat split. constructor. }
  rewrite Hh, Hg, Hn. cbn zeta.
  assert (Hne : ruleAddresses <> []).
  { intros ->. discriminate. }
  destruct ((length (filter isHTTP ruleAddresses) =? 0)%nat
            && (length (filter isGRPC ruleAddresses) =? 0)%nat) eqn:Hboth.
  - apply andb_true_iff in Hboth as [Hnh Hng].
    apply length_zero_nil in Hnh, Hng. cbn [fst snd].
    assert (Hall : Forall isOther ruleAddresses).
    { apply Forall_forall. intros a Ha. split; intros Hp.
      - exact (filter_nil_not_elem_of isHTTP _ a Hnh Hp Ha).
      - exact (filter_nil_not_elem_of isGRPC _ a Hng Hp Ha). }
    split; [exact Hall |]. split; [| reflexivity].
    rewrite decide_False by exact Hne. f_equal.
    clear -Hall. induction Hall as [| a l Ha _ IH]; [reflexivity |].
    rewrite filter_cons, decide_True by exact Ha. now rewrite IH.
  - cbn [fst snd]. exists ruleAddresses.
    split; [reflexivity |]. split; [reflexivity |].
    set (http := filter isHTTP ruleAddresses) in *.
    set (grpc := filter isGRPC ruleAddresses) in *.
    split.
    { apply andb_false_iff in Hboth.
      assert (Hsome : http <> [] \/ grpc <> []).
      { destruct Hboth as [H | H]; [left | right]; intros Hnil;
          apply length_zero_nil in Hnil; congruence. }
      apply Exists_exists.
      destruct Hsome as [H | H].
      - destruct http as [| a l] eqn:Hl; [contradiction |].
        assert (Hin : a ∈ filter isHTTP ruleAddresses)
          by (fold http; rewrite Hl; apply list_elem_of_here).
        apply list_elem_of_filter in Hin as [Hp Hin]. exists a. auto.
      - destruct grpc as [| a l] eqn:Hl; [contradiction |].
        assert (Hin : a ∈ filter isGRPC ruleAddresses)
          by (fold grpc; rewrite Hl; apply list_elem_of_here).
        apply list_elem_of_filter in Hin as [Hp Hin]. exists a. auto. }
    assert (Hpartly : forall x : wafEffect,
      x ∈ (if (0 <? length (filter isOther ruleAddresses))%nat
           then [Log (DebugPartiallySupported (filter isOther ruleAddresses))] else [])
      -> exists line, x = Log line).
    { intros x. destruct (0 <? _)%nat; intros Hin.
      - apply list_elem_of_singleton in Hin. eauto.
      - now apply elem_of_nil in Hin. }
    assert (Hblocking : forall x : wafEffect,
      x ∈ EnableRCBlocking :: match rcBlocking with
                              | Some err => [Log (ErrorRCBlocking err)]
                              | None => []
                              end
      -> x = EnableRCBlocking \/ exists line, x = Log line).
    { intros x Hin. apply elem_of_cons in Hin as [-> | Hin]; [now left |].
      right. destruct rcBlocking.
      - apply list_elem_of_singleton in Hin. eauto.
      - now apply elem_of_nil in Hin. }
    assert (Hhttp : forall x : wafEffect,
      x ∈ (if (0 <? length http)%nat
           then [Log (DebugRegisteringHTTP http); RegisterHTTP http] else [])
      <-> http <> [] /\ (x = Log (DebugRegisteringHTTP http) \/ x = RegisterHTTP http)).
    { intros x. destruct (0 <? length http)%nat eqn:Hpos.
      - assert (http <> []) by (intros Hnil; apply length_pos_nil in Hnil; congruence).
        rewrite !elem_of_cons, elem_of_nil. tauto.
      - apply length_pos_nil in Hpos. rewrite elem_of_nil. tauto. }
    assert (Hgrpc : forall x : wafEffect,
      x ∈ (if (0 <? length grpc)%nat
           then [Log (DebugRegisteringGRPC grpc); RegisterGRPC grpc] else [])
      <-> grpc <> [] /\ (x = Log (DebugRegisteringGRPC grpc) \/ x = RegisterGRPC grpc)).
    { intros x. destruct (0 <? length grpc)%nat eqn:Hpos.
      - assert (grpc <> []) by (intros Hnil; apply length_pos_nil in Hnil; congruence).
        rewrite !elem_of_cons, elem_of_nil. tauto.
      - apply length_pos_nil in Hpos. rewrite elem_of_nil. tauto. }
    split.
    { rewrite !elem_of_app, list_elem_of_singleton, Hhttp, Hgrpc.
      intros [H | [H | [[_ [H | H]] | [[_ [H | H]] | H]]]]; try discriminate.
      - apply Hpartly in H as [line H]. discriminate.
      - apply Hblocking in H as [H | [line H]]; discriminate. }
    split.
    { intros l. rewrite !elem_of_app, list_elem_of_singleton, Hhttp, Hgrpc. split.
      - intros [H | [H | [[Hn' [H | H]] | [[_ [H | H]] | H]]]]; try discriminate.
        + apply Hpartly in H as [line H]. discriminate.
        + injection H as ->. now split.
        + apply Hblocking in H as [H | [line H]]; discriminate.
      - intros [-> Hn']. right. right. left. split; [exact Hn' | now right]. }
    split.
    { intros l. rewrite !elem_of_app, list_elem_of_singleton, Hhttp, Hgrpc. split.
      - intros [H | [H | [[_ [H | H]] | [[Hn' [H | H]] | H]]]]; try discriminate.
        + apply Hpartly in H as [line H]. discriminate.
        + injection H as ->. now split.
        + apply Hblocking in H as [H | [line H]]; discriminate.
      - intros [-> Hn']. right. right. right. left. split; [exact Hn' | now right]. }
    f_equal; [| f_equal].
    + destruct (0 <? length http)%nat eqn:Hpos.
      * rewrite decide_False; [reflexivity |].
        intros Hnil. apply length_pos_nil in Hnil. congruence.
      * apply length_pos_nil in Hpos. now rewrite decide_True.
    + destruct (0 <? length grpc)%nat eqn:Hpos.
      * rewrite decide_False; [reflexivity |].
        intros Hnil. apply length_pos_nil in Hnil. congruence.
      * apply length_pos_nil in Hpos. now rewrite decide_True.
Qed.

(** A rule with one HTTP address and one unknown address. *)
Example registerWAF_partly_supported :
  registerWAF None (inr ["server.request.query"; "user.defined"]) None
  = (inr [UnregisterHTTP; CloseHandle],
     [NewHandle;
      Log (DebugPartiallySupported ["user.defined"]);
      Log (DebugRegisteringHTTP ["server.request.query"]);
      RegisterHTTP ["server.request.query"];
      EnableRCBlocking]).
Proof. vm_compute. reflexivity. Qed.

(** *** The values given to the WAF *)

Lemma addValue_lookup (args : HandlerOperationArgs) (body : option string) (status : Z)
    (values : gmap string wafValue) (addr key : string) :
  addValue args body status values addr !! key
  = if decide (key = addr)
    then match requestDatum args body status addr with
         | Some v => Some v
         | None => values !! addr
         end
    else values !! key.
Proof.
  destruct (decide (key = addr)) as [-> | Hne].
  - unfold addValue, requestDatum.
    repeat (case_decide;
            [ try (destruct (Headers args)); try (destruct (Cookies args));
              try (destruct (Query args)); try (destruct (PathParams args));
              try (destruct body); cbn [fmap option_fmap option_map];
              subst; rewrite ?lookup_insert_eq; reflexivity |]).
    reflexivity.
  - unfold addValue.
    repeat (case_decide;
            [ try (destruct (Headers args)); try (destruct (Cookies args));
              try (destruct (Query args)); try (destruct (PathParams args));
              try (destruct body);
              subst; rewrite ?lookup_insert_ne by congruence; reflexivity |]).
    reflexivity.
Qed.

Lemma fold_addValue_lookup (args : HandlerOperationArgs) (body : option string)
    (status : Z) (addresses : list string) :
  forall (values : gmap string wafValue) (key : string),
    fold_left (addValue args body status) addresses values !! key
    = if decide (key ∈ addresses)
      then match requestDatum args body status key with
           | Some v => Some v
           | None => values !! key
           end
      else values !! key.
Proof.
  induction addresses as [| addr rest IH]; intros values key; cbn [fold_left].
  - rewrite decide_False; [reflexivity | apply not_elem_of_nil].
  - rewrite IH, addValue_lookup.
    destruct (decide (key = addr)) as [-> | Hne].
    + rewrite (decide_True (P := addr ∈ addr :: rest)) by apply list_elem_of_here.
      destruct (requestDatum args body status addr); case_decide; reflexivity.
    + destruct (decide (key ∈ rest)) as [Hin | Hnin].
      * rewrite (decide_True (P := key ∈ addr :: rest))
          by (now apply list_elem_of_further).
        reflexivity.
      * rewrite (decide_False (P := key ∈ addr :: rest)); [reflexivity |].
        intros Hin. apply elem_of_cons in Hin as [-> | Hin]; contradiction.
Qed.

(** X10: the values the HTTP listener hands to the WAF are the request's
    data for the addresses of the listener and nothing else: an address has
    an entry exactly when it is in the list and the request has something
    for it, so nil headers, cookies, query or path parameters and a body
    that was never reported leave no entry, and neither does an address
    that is not one of the seven HTTP addresses.  The order of the list and
    repetitions in it do not matter. *)
Theorem httpValues_lookup
    (addresses : list string) (args : HandlerOperationArgs)
    (body : option string) (status : Z) (key : string) :
  httpValues addresses args body status !! key
  = (if decide (key ∈ addresses) then requestDatum args body status key else None)
  /\ (key ∉ httpAddressesDecl -> httpValues addresses args body status !! key = None)
  /\ (forall addresses',
        (forall a, a ∈ addresses <-> a ∈ addresses') ->
        httpValues addresses' args body status = httpValues addresses args body status).
Proof.
  assert (Hlookup : forall l k,
    httpValues l args body status !! k
    = if decide (k ∈ l) then requestDatum args body status k else None).
  { intros l k. unfold httpValues. rewrite fold_addValue_lookup, lookup_empty.
    case_decide; [| reflexivity]. now destruct (requestDatum args body status k). }
  split; [apply Hlookup |]. split.
  - intros Hnot. rewrite Hlookup. case_decide; [| reflexivity].
    unfold requestDatum.
    repeat (case_decide;
            [subst; exfalso; apply Hnot; unfold httpAddressesDecl;
             rewrite !elem_of_cons; tauto |]).
    reflexivity.
  - intros addresses' Hsame. apply map_eq. intros k. rewrite !Hlookup.
    destruct (decide (k ∈ addresses)) as [Hin | Hnin].
    + rewrite decide_True by (now apply Hsame). reflexivity.
    + rewrite decide_False; [reflexivity |]. intros Hin. now apply Hnin, Hsame.
Qed.

(** A listener for three addresses on a request without cookies. *)
Example httpValues_no_cookies :
  let values :=
    httpValues
      ["server.request.cookies"; "server.request.uri.raw"; "server.response.status"]
      (mkHandlerOperationArgs "/a?b=c" None None None None) None 404 in
  values !! "server.request.uri.raw" = Some (VRawURI "/a?b=c") /\
  values !! "server.response.status" = Some (VStatus 404) /\
  values !! "server.request.cookies" = None /\
  values !! "server.request.query" = None /\
  size values = 2%nat.
Proof. vm_compute. repeat split. Qed.

(** *** The listeners *)

Lemma string_length_zero (s : string) : (String.length s =? 0)%nat = true <-> s = "".
Proof. destruct s; cbn; split; congruence. Qed.

Lemma runWAF_found (r : runResult) :
  (runWAF r).1 = match runErr r with
                 | Some (ErrOther _) => ""
                 | _ => matches r
                 end.
Proof. unfold runWAF. destruct (runErr r) as [[| e] |]; reflexivity. Qed.

Lemma Logged_not_effect (logged : list logLine) (x : opEffect) :
  x ∈ (Logged <$> logged) -> exists line, x = Logged line.
Proof.
  intros Hin. apply list_elem_of_fmap in Hin as (line & -> & _). now exists line.
Qed.

(** One call of the HTTP callback. *)
Lemma httpOnFinish_spec (addresses : list string) (call : httpCall) (once : bool) :
  let e := (httpOnFinish addresses call once).1 in
  (httpOnFinish addresses call once).2 = once || bool_decide (is_Some (hContext call)) /\
  (hContext call = None -> e = []) /\
  (is_Some (hContext call) -> last e = Some ContextClose) /\
  (AddRulesMonitoringTags ∈ e <-> once = false /\ is_Some (hContext call)) /\
  (AddTagManualKeep ∈ e <-> once = false /\ is_Some (hContext call)) /\
  (forall events, AddSecurityEvents events ∈ e <->
     httpFound addresses call <> "" /\ hAllow call = true /\
     events = [httpFound addresses call]) /\
  (forall allowed, LimiterAllow allowed ∈ e <->
     httpFound addresses call <> "" /\ allowed = hAllow call).
Proof.
  cbn zeta. unfold httpOnFinish, httpFound.
  destruct (hContext call) as [wafCtx |]; cbn [fst snd].
  2: { rewrite orb_false_r.
       split; [reflexivity |]. split; [reflexivity |].
       split; [intros [x Hx]; discriminate |].
       split; [split; [intros H; now apply elem_of_nil in H
                      | intros [_ [x Hx]]; discriminate] |].
       split; [split; [intros H; now apply elem_of_nil in H
                      | intros [_ [x Hx]]; discriminate] |].
       split; [intros events; split; [intros H; now apply elem_of_nil in H
                                     | intros [Hne _]; now contradiction Hne] |].
       intros allowed; split; [intros H; now apply elem_of_nil in H
                              | intros [Hne _]; now contradiction Hne]. }
  set (values := httpValues addresses (hArgs call) (hBody call) (hStatus call)).
  destruct (runWAF (Run wafCtx values)) as [found logged] eqn:Hrun. cbn [fst snd].
  assert (Hsome : is_Some (Some wafCtx)) by (now exists wafCtx).
  rewrite (bool_decide_eq_true_2 _ Hsome), orb_true_r.
  split; [reflexivity |]. split; [discriminate |].
  split.
  { intros _. rewrite app_comm_cons, !app_assoc. apply last_snoc. }
  assert (Hlogged := Logged_not_effect logged).
  assert (Hrules : forall x : opEffect,
    x ∈ (if once then [] else [AddRulesMonitoringTags; AddTagManualKeep])
    <-> once = false /\ (x = AddRulesMonitoringTags \/ x = AddTagManualKeep)).
  { intros x. destruct once; rewrite ?elem_of_cons, elem_of_nil;
      intuition discriminate. }
  assert (Hattack : forall x : opEffect,
    x ∈ (if (String.length found =? 0)%nat then []
         else Logged DebugAttackHTTP :: LimiterAllow (hAllow call)
              :: (if hAllow call then [AddSecurityEvents [found]] else []))
    <-> found <> "" /\
        (x = Logged DebugAttackHTTP \/ x = LimiterAllow (hAllow call) \/
         (hAllow call = true /\ x = AddSecurityEvents [found]))).
  { intros x. destruct (String.length found =? 0)%nat eqn:Hlen.
    - apply string_length_zero in Hlen. rewrite elem_of_nil. tauto.
    - assert (found <> "") by (intros Hnil; apply string_length_zero in Hnil; congruence).
      destruct (hAllow call); rewrite ?elem_of_cons, elem_of_nil;
        intuition discriminate. }
  assert (Hin_rules : forall x : opEffect,
    once = false -> x = AddRulesMonitoringTags \/ x = AddTagManualKeep ->
    x ∈ RunWAF values :: (Logged <$> logged)
        ++ [AddWAFMonitoringTags (TotalRuntime wafCtx).1 (TotalRuntime wafCtx).2
              (TotalTimeouts wafCtx)]
        ++ (if once then [] else [AddRulesMonitoringTags; AddTagManualKeep])
        ++ (if (String.length found =? 0)%nat then []
            else Logged DebugAttackHTTP :: LimiterAllow (hAllow call)
                 :: (if hAllow call then [AddSecurityEvents [found]] else []))
        ++ [ContextClose]).
  { intros x Ho Hx. apply list_elem_of_further. rewrite !elem_of_app.
    right. right. left. apply Hrules. now split. }
  assert (Hin_attack : forall x : opEffect,
    found <> "" ->
    x = LimiterAllow (hAllow call)
    \/ (hAllow call = true /\ x = AddSecurityEvents [found]) ->
    x ∈ RunWAF values :: (Logged <$> logged)
        ++ [AddWAFMonitoringTags (TotalRuntime wafCtx).1 (TotalRuntime wafCtx).2
              (TotalTimeouts wafCtx)]
        ++ (if once then [] else [AddRulesMonitoringTags; AddTagManualKeep])
        ++ (if (String.length found =? 0)%nat then []
            else Logged DebugAttackHTTP :: LimiterAllow (hAllow call)
                 :: (if hAllow call then [AddSecurityEvents [found]] else []))
        ++ [ContextClose]).
  { intros x Hf Hx. apply list_elem_of_further. rewrite !elem_of_app.
    right. right. right. left. apply Hattack. split; [exact Hf | tauto]. }
  split; [| split; [| split]].
  - split.
    + intros H. apply elem_of_cons in H as [H | H]; [discriminate |].
      rewrite !elem_of_app in H. destruct H as [H | [H | [H | [H | H]]]].
      * apply Hlogged in H as [line H]. discriminate.
      * apply list_elem_of_singleton in H. discriminate.
      * apply Hrules in H as [Ho _]. now split.
      * apply Hattack in H as [_ [H | [H | [_ H]]]]; discriminate.
      * apply list_elem_of_singleton in H. discriminate.
    + intros [Ho _]. apply Hin_rules; [exact Ho | now left].
  - split.
    + intros H. apply elem_of_cons in H as [H | H]; [discriminate |].
      rewrite !elem_of_app in H. destruct H as [H | [H | [H | [H | H]]]].
      * apply Hlogged in H as [line H]. discriminate.
      * apply list_elem_of_singleton in H. discriminate.
      * apply Hrules in H as [Ho _]. now split.
      * apply Hattack in H as [_ [H | [H | [_ H]]]]; discriminate.
      * apply list_elem_of_singleton in H. discriminate.
    + intros [Ho _]. apply Hin_rules; [exact Ho | now right].
  - intros events. split.
    + intros H. apply elem_of_cons in H as [H | H]; [discriminate |].
      rewrite !elem_of_app in H. destruct H as [H | [H | [H | [H | H]]]].
      * apply Hlogged in H as [line H]. discriminate.
      * apply list_elem_of_singleton in H. discriminate.
      * apply Hrules in H as [_ [H | H]]; discriminate.
      * apply Hattack in H as [Hf [H | [H | [Ha H]]]]; try discriminate.
        injection H as ->. now repeat split.
      * apply list_elem_of_singleton in H. discriminate.
    + intros (Hf & Ha & ->). apply Hin_attack; [exact Hf | right; now split].
  - intros allowed. split.
    + intros H. apply elem_of_cons in H as [H | H]; [discriminate |].
      rewrite !elem_of_app in H. destruct H as [H | [H | [H | [H | H]]]].
      * apply Hlogged in H as [line H]. discriminate.
      * apply list_elem_of_singleton in H. discriminate.
      * apply Hrules in H as [_ [H | H]]; discriminate.
      * apply Hattack in H as [Hf [H | [H | [Ha H]]]]; try discriminate.
        injection H as ->. now split.
      * apply list_elem_of_singleton in H. discriminate.
    + intros (Hf & ->). apply Hin_attack; [exact Hf | now left].
Qed.

(** X11: the HTTP listener over the calls of its lifetime, one after the
    other.  A call that gets no WAF context does nothing.  The rules
    monitoring tags and the manual-keep tag go to the first call that gets a
    context and to no other.  The limiter is asked only when the WAF found
    something, and security events are added, the WAF's bytes as the one
    event, exactly when it found something and the limiter allows; an
    unexpected error of the WAF counts as nothing found, a timeout keeps
    what was found.  Every context obtained is closed at the end. *)
Theorem httpListener_effects (addresses : list string) (calls : list httpCall) :
  let effects := httpListener addresses calls false in
  length effects = length calls /\
  forall i call,
    calls !! i = Some call ->
    exists e,
      effects !! i = Some e /\
      (hContext call = None -> e = []) /\
      (is_Some (hContext call) -> last e = Some ContextClose) /\
      (AddRulesMonitoringTags ∈ e <->
         is_Some (hContext call) /\ Forall (fun c => hContext c = None) (take i calls)) /\
      (AddTagManualKeep ∈ e <-> AddRulesMonitoringTags ∈ e) /\
      (forall events, AddSecurityEvents events ∈ e <->
         httpFound addresses call <> "" /\ hAllow call = true /\
         events = [httpFound addresses call]) /\
      (forall allowed, LimiterAllow allowed ∈ e <->
         httpFound addresses call <> "" /\ allowed = hAllow call) /\
      (forall wafCtx, hContext call = Some wafCtx ->
         httpFound addresses call
         = match runErr (Run wafCtx (httpValues addresses (hArgs call) (hBody call)
                                       (hStatus call))) with
           | Some (ErrOther _) => ""
           | _ => matches (Run wafCtx (httpValues addresses (hArgs call) (hBody call)
                                         (hStatus call)))
           end).
Proof.
  cbn zeta.
  assert (Hgen : forall calls once,
    length (httpListener addresses calls once) = length calls /\
    forall i call,
      calls !! i = Some call ->
      exists e,
        (httpListener addresses calls once) !! i = Some e /\
        (hContext call = None -> e = []) /\
        (is_Some (hContext call) -> last e = Some ContextClose) /\
        (AddRulesMonitoringTags ∈ e <->
           once = false /\ is_Some (hContext call) /\
           Forall (fun c => hContext c = None) (take i calls)) /\
        (AddTagManualKeep ∈ e <-> AddRulesMonitoringTags ∈ e) /\
        (forall events, AddSecurityEvents events ∈ e <->
           httpFound addresses call <> "" /\ hAllow call = true /\
           events = [httpFound addresses call]) /\
        (forall allowed, LimiterAllow allowed ∈ e <->
           httpFound addresses call <> "" /\ allowed = hAllow call)).
  { clear calls. induction calls as [| c rest IH]; intros once.
    - split; [reflexivity |]. intros i call Hi. discriminate.
    - cbn [httpListener].
      pose proof (httpOnFinish_spec addresses c once)
        as (Honce & Hnone & Hlast & Hrules & Hkeep & Hev & Hlim).
      cbn zeta in *.
      destruct (httpOnFinish addresses c once) as [e once'] eqn:Hcall.
      cbn [fst snd] in *.
      destruct (IH once') as [Hlen Hrest].
      split; [cbn; now rewrite Hlen |].
      intros [| i] call Hi.
      + injection Hi as <-. exists e. split; [reflexivity |].
        split; [exact Hnone |]. split; [exact Hlast |].
        split.
        { rewrite Hrules. cbn [take]. split.
          - intros [? ?]. repeat split; auto.
          - tauto. }
        split; [rewrite Hkeep, Hrules; tauto |]. split; assumption.
      + cbn [lookup list_lookup] in Hi.
        destruct (Hrest i call Hi) as (e' & He' & Hn' & Hl' & Hr' & Hk' & Hs' & Ha').
        exists e'. split; [exact He' |].
        split; [exact Hn' |]. split; [exact Hl' |].
        split; [| split; [exact Hk' | split; assumption]].
        rewrite Hr', Honce. cbn [take]. rewrite Forall_cons.
        destruct once; cbn [orb].
        * split; [intros [? _]; discriminate | intros [? _]; discriminate].
        * rewrite bool_decide_eq_false.
          split.
          -- intros (Hd & Hctx & Hall). repeat split; auto.
             destruct (hContext c) eqn:Hc; [| reflexivity].
             exfalso. apply Hd. eauto.
          -- intros (_ & Hctx & Hc & Hall). repeat split; auto.
             rewrite Hc. intros [x Hx]. discriminate. }
  destruct (Hgen calls false) as [Hlen Hall]. split; [exact Hlen |].
  intros i call Hi.
  destruct (Hall i call Hi) as (e & He & Hn & Hl & Hr & Hk & Hs & Ha).
  exists e. split; [exact He |]. split; [exact Hn |]. split; [exact Hl |].
  split; [rewrite Hr; tauto |]. split; [exact Hk |].
  split; [exact Hs |]. split; [exact Ha |].
  intros wafCtx Hctx. unfold httpFound. rewrite Hctx. apply runWAF_found.
Qed.

(** *** The events of one RPC *)

Lemma grpcReceives_collected (metadata : list (string * list string))
    (recvs : list grpcReceive) :
  forall st : grpcRequest,
    nbEvents st = Z.of_nat (length (collected st)) ->
    (length (collected st) <= 10)%nat ->
    let st' := (grpcReceives metadata recvs st).2 in
    collected st' = take 10 (collected st ++ omap (grpcEventOf metadata) recvs) /\
    nbEvents st' = Z.of_nat (length (collected st')).
Proof.
  induction recvs as [| recv rest IH]; intros st Hnb Hlen; cbn zeta.
  - cbn. rewrite app_nil_r, take_ge by lia. now split.
  - cbn [grpcReceives]. unfold grpcOnReceive, maxWAFEventsPerRequest.
    destruct (nbEvents st =? 10) eqn:Hfull.
    + apply Z.eqb_eq in Hfull.
      match goal with
      | |- context [grpcReceives metadata rest ?s] =>
          destruct (IH s) as [Hc Hn]; [exact Hnb | exact Hlen |];
          destruct (grpcReceives metadata rest s) as [more st'']
      end.
      cbn [snd collected] in *. split; [| exact Hn].
      rewrite Hc, !take_app_le by lia. reflexivity.
    + apply Z.eqb_neq in Hfull.
      assert (Hlt : (length (collected st) < 10)%nat) by lia.
      assert (Hcons : omap (grpcEventOf metadata) (recv :: rest)
                      = match grpcEventOf metadata recv with
                        | Some event => event :: omap (grpcEventOf metadata) rest
                        | None => omap (grpcEventOf metadata) rest
                        end) by reflexivity.
      rewrite Hcons. clear Hcons.
      destruct (gContext recv) as [wafCtx |] eqn:Hctx.
      2: { assert (Hev : grpcEventOf metadata recv = None)
             by (unfold grpcEventOf; now rewrite Hctx).
           rewrite Hev. destruct (IH st Hnb Hlen) as [Hc Hn].
           destruct (grpcReceives metadata rest st) as [more st''].
           cbn [snd] in *. now split. }
      match goal with
      | |- context [runWAF ?r] => destruct (runWAF r) as [event logged] eqn:Hrun
      end.
      cbn [fst].
      destruct (String.length event =? 0)%nat eqn:Hempty.
      * assert (Hev : grpcEventOf metadata recv = None).
        { unfold grpcEventOf. rewrite Hctx. cbn zeta. rewrite Hrun. cbn [fst].
          now rewrite Hempty. }
        rewrite Hev.
        match goal with
        | |- context [grpcReceives metadata rest ?s] =>
            destruct (IH s) as [Hc Hn]; [exact Hnb | exact Hlen |];
            destruct (grpcReceives metadata rest s) as [more st'']
        end.
        cbn [snd collected] in *. now split.
      * assert (Hev : grpcEventOf metadata recv = Some event).
        { unfold grpcEventOf. rewrite Hctx. cbn zeta. rewrite Hrun. cbn [fst].
          now rewrite Hempty. }
        rewrite Hev.
        match goal with
        | |- context [grpcReceives metadata rest ?s] =>
            destruct (IH s) as [Hc Hn];
            [| | destruct (grpcReceives metadata rest s) as [more st'']]
        end.
        -- cbn [nbEvents collected]. rewrite length_app. cbn [length].
           unfold uint32. rewrite Z.mod_small; lia.
        -- cbn [collected]. rewrite length_app. cbn [length]. lia.
        -- cbn [snd collected] in *. split; [| exact Hn].
           rewrite Hc, <- app_assoc. reflexivity.
Qed.

(** X12: the gRPC listener over the messages of one RPC, one after the
    other, keeps at most ten events: the events are the first ten non-empty
    results the WAF gave, in order, and the counter is their number.  When
    the RPC ends they are added to the operation as its security events if
    there are any and the limiter allows, and the limiter is not asked when
    there are none. *)
Theorem grpc_events_capped
    (metadata : list (string * list string)) (recvs : list grpcReceive)
    (allow once : bool) :
  let st := (grpcReceives metadata recvs grpcRequestStart).2 in
  let finish := (grpcOnFinish st allow once).1 in
  collected st = take 10 (omap (grpcEventOf metadata) recvs) /\
  (length (collected st) <= 10)%nat /\
  nbEvents st = Z.of_nat (length (collected st)) /\
  (forall events, AddSecurityEvents events ∈ finish <->
     events = collected st /\ collected st <> [] /\ allow = true) /\
  (forall allowed, LimiterAllow allowed ∈ finish <->
     allowed = allow /\ collected st <> []) /\
  (AddRulesMonitoringTags ∈ finish <-> once = false).
Proof.
  cbn zeta.
  destruct (grpcReceives_collected metadata recvs grpcRequestStart) as [Hc Hn];
    [reflexivity | cbn; lia |].
  cbn zeta in *. cbn [grpcRequestStart collected app] in Hc.
  set (st := (grpcReceives metadata recvs grpcRequestStart).2) in *.
  split; [exact Hc |].
  split; [rewrite Hc, length_take; lia |].
  split; [exact Hn |].
  unfold grpcOnFinish. cbn [fst].
  destruct (collected st) as [| ev evs] eqn:Hcol; cbn [length Nat.ltb Nat.leb];
    destruct once, allow; cbn [app];
    (split; [intros events | split; [intros allowed |]]);
    rewrite ?elem_of_cons, ?elem_of_nil;
    intuition (try discriminate; try congruence).
Qed.

End WafFacts.

Module CheckMilestoneFacts.
Import CheckMilestone.

Lemma Atoi_in_range (s : string) (z : Z) :
  Atoi s = Some z -> - 2 ^ 63 <= z < 2 ^ 63.
Proof.
  unfold Atoi. intros Hs.
  destruct (Z.of_int <$> _) as [z' |] in Hs; cbn in Hs; [| discriminate].
  case_decide; [| discriminate]. now injection Hs as <-.
Qed.

(** X13: The milestone check ends with status 0 exactly when PR_NUMBER is
    a number, the request is answered and the answer decodes to a milestone
    that is not nil; it then prints the success line alone.  In every other
    case it ends with status 1 after printing the one error.  It requests
    at most one URL, the issues URL followed by the number in decimal
    (which reads back as the number), and none when PR_NUMBER is not a
    number. *)
Theorem main_outcome (PR_NUMBER : string) (httpGet : string -> string + string)
    (decode : string -> string + option string) :
  let r := main PR_NUMBER httpGet decode in
  (status r = 0 <->
     exists pr body m, Atoi PR_NUMBER = Some pr /\
       httpGet (issueURL pr) = inr body /\ decode body = inr (Some m)) /\
  (status r = 0 -> stdout r = [PrintLine "Milestone check passed."]) /\
  (status r <> 0 -> status r = 1 /\ exists err, stdout r = [PrintError err]) /\
  (forall url, url ∈ requested r ->
     requested r = [url] /\
     exists pr, Atoi PR_NUMBER = Some pr /\ url = issuesURL +:+ Itoa pr /\
       Atoi (Itoa pr) = Some pr) /\
  (Atoi PR_NUMBER = None -> requested r = []).
Proof.
  unfold main.
  destruct (Atoi PR_NUMBER) as [pr |] eqn:Hpr; cbn zeta.
  2:{ cbn. repeat split; try discriminate; try lia; eauto.
      - intros (pr & _ & _ & [=] & _).
      - exfalso. eapply not_elem_of_nil; eassumption.
      - exfalso. eapply not_elem_of_nil; eassumption. }
  assert (Hurl : forall url : string, url ∈ [issueURL pr] ->
            [issueURL pr] = [url] /\
            exists pr', Some pr = Some pr' /\ url = issuesURL +:+ Itoa pr' /\
              Atoi (Itoa pr') = Some pr').
  { intros url ->%list_elem_of_singleton. split; [reflexivity |].
    exists pr. repeat split. apply Atoi_Itoa. eapply Atoi_in_range, Hpr. }
  destruct (httpGet (issueURL pr)) as [err | body] eqn:Hget; cbn.
  { repeat split; try discriminate; try lia; eauto; try apply Hurl; try assumption.
    intros (pr' & body & m & [= <-] & Hget' & _). congruence. }
  destruct (decode body) as [err | [m |]] eqn:Hdec; cbn;
    (repeat split; try discriminate; try lia; eauto; try apply Hurl; try assumption).
  - intros (pr' & body' & m' & [= <-] & Hget' & Hdec'). congruence.
  - intros _. now exists pr, body, m.
  - intros (pr' & body' & m' & [= <-] & Hget' & Hdec'). congruence.
Qed.

End CheckMilestoneFacts.

Module NetHTTPFacts.
Import NetHTTP.
Local Open Scope nat_scope.

Section facts.
Context {F : Type}.
Implicit Types (cfg : config F) (w : wrapper F) (r : request).

Lemma serverTags_S (l : list spanOpt) (n : nat) :
  ((l ++ [SpanKindServerTag]) ++ [ComponentTag]) ++ serverTags n
  = l ++ serverTags (S n).
Proof. now rewrite <- !app_assoc. Qed.

Lemma serverTags_0 (l : list spanOpt) : l = l ++ serverTags 0.
Proof. unfold serverTags; cbn. now rewrite app_nil_r. Qed.

Lemma serverTags_1 (l : list spanOpt) :
  (l ++ [SpanKindServerTag]) ++ [ComponentTag] = l ++ serverTags 1.
Proof. now rewrite <- serverTags_S, <- serverTags_0. Qed.

(** The run of a mux, with what it keeps of the configuration. *)
Lemma serveAll_run (routeOf : request -> string) (rs : list request) cfg :
  (serviceName (serveAll routeOf rs cfg).2 = serviceName cfg /\
   finishOpts (serveAll routeOf rs cfg).2 = finishOpts cfg /\
   ignoreRequest (serveAll routeOf rs cfg).2 = ignoreRequest cfg /\
   resourceNamer (serveAll routeOf rs cfg).2 = resourceNamer cfg) /\
  spanOpts (serveAll routeOf rs cfg).2
    = spanOpts cfg ++ serverTags (length (tracedOf cfg rs)) /\
  forall i r, rs !! i = Some r ->
    (serveAll routeOf rs cfg).1 !! i = Some (
      if ignoreRequest cfg r then ServedPlain r
      else TraceAndServe r
             {| Service := serviceName cfg;
                Resource := if decide (resourceNamer cfg r = "")
                            then Method r +:+ " " +:+ routeOf r
                            else resourceNamer cfg r;
                FinishOpts := [];
                SpanOpts := spanOpts cfg
                              ++ serverTags (S (length (tracedOf cfg (take i rs))));
                Route := routeOf r |}).
Proof.
  revert cfg. induction rs as [| r0 rest IH]; intros cfg.
  - cbn. repeat split; [apply serverTags_0 | intros i r [=]].
  - cbn [serveAll]. unfold ServeHTTP.
    destruct (ignoreRequest cfg r0) eqn:Hig.
    + specialize (IH cfg). destruct (serveAll routeOf rest cfg) as [outs cfg2].
      cbn [fst snd] in *. destruct IH as (Hkeep & Hopts & Hout).
      assert (Htr : forall l, tracedOf cfg (r0 :: l) = tracedOf cfg l).
      { intros l. unfold tracedOf; cbn. now rewrite Hig. }
      split; [exact Hkeep |]. split; [now rewrite Htr |].
      intros [| i] r Hr; cbn in Hr.
      * injection Hr as <-. cbn. now rewrite Hig.
      * cbn [lookup list_lookup take]. rewrite Htr. apply (Hout i r Hr).
    + cbn zeta.
      match goal with
      | |- context [serveAll routeOf rest ?c] => specialize (IH c);
          destruct (serveAll routeOf rest c) as [outs cfg2]
      end.
      cbn [fst snd serviceName finishOpts ignoreRequest resourceNamer spanOpts] in *.
      destruct IH as (Hkeep & Hopts & Hout).
      assert (Htr : forall l,
                length (tracedOf cfg (r0 :: l)) = S (length (tracedOf cfg l))).
      { intros l. unfold tracedOf; cbn. now rewrite Hig. }
      split; [exact Hkeep |]. split.
      { rewrite Hopts, Htr. unfold tracedOf at 1. cbn [ignoreRequest].
        apply serverTags_S. }
      intros [| i] r Hr; cbn in Hr.
      * injection Hr as <-. cbn. rewrite Hig. do 2 f_equal.
        f_equal. apply serverTags_1.
      * etrans; [exact (Hout i r Hr) |]. rewrite firstn_cons, Htr.
        destruct (ignoreRequest cfg r); [reflexivity |].
        do 2 f_equal. f_equal. unfold tracedOf at 1. cbn [ignoreRequest].
        apply serverTags_S.
Qed.

(** X14: A traced mux that serves requests one after the other keeps
    appending to its own configuration: after a run the span options are
    the configured ones followed by one pair of tags (span kind, component)
    for every request that was traced.  An ignored request goes to the
    wrapped mux as it is; the traced request at position [i] is served with
    the configured options followed by one pair of tags for each traced
    request so far, itself included, under the name the resource namer
    gives or, when that is empty, the method, a space and the route. *)
Theorem ServeMux_options_accumulate (routeOf : request -> string)
    (rs : list request) cfg :
  spanOpts (serveAll routeOf rs cfg).2
    = spanOpts cfg ++ serverTags (length (tracedOf cfg rs)) /\
  forall i r, rs !! i = Some r ->
    (serveAll routeOf rs cfg).1 !! i = Some (
      if ignoreRequest cfg r then ServedPlain r
      else TraceAndServe r
             {| Service := serviceName cfg;
                Resource := if decide (resourceNamer cfg r = "")
                            then Method r +:+ " " +:+ routeOf r
                            else resourceNamer cfg r;
                FinishOpts := [];
                SpanOpts := spanOpts cfg
                              ++ serverTags (S (length (tracedOf cfg (take i rs))));
                Route := routeOf r |}).
Proof. exact (proj2 (serveAll_run routeOf rs cfg)). Qed.

Lemma lastNamed_snoc cfg (resource : string) (rs : list request) r :
  lastNamed cfg resource (rs ++ [r])
  = if decide (resourceNamer cfg r <> "") then resourceNamer cfg r
    else lastNamed cfg resource rs.
Proof. unfold lastNamed. now rewrite fold_left_app. Qed.

(** The run of a wrapped handler, with what it keeps of its captured
    variables. *)
Lemma handleAll_run (reqs : list request) w :
  (wService (handleAll reqs w).2 = wService w /\
   serviceName (wConfig (handleAll reqs w).2) = serviceName (wConfig w) /\
   finishOpts (wConfig (handleAll reqs w).2) = finishOpts (wConfig w) /\
   ignoreRequest (wConfig (handleAll reqs w).2) = ignoreRequest (wConfig w) /\
   resourceNamer (wConfig (handleAll reqs w).2) = resourceNamer (wConfig w)) /\
  wResource (handleAll reqs w).2
    = lastNamed (wConfig w) (wResource w) (tracedOf (wConfig w) reqs) /\
  spanOpts (wConfig (handleAll reqs w).2)
    = spanOpts (wConfig w) ++ serverTags (length (tracedOf (wConfig w) reqs)) /\
  forall i req, reqs !! i = Some req ->
    (handleAll reqs w).1 !! i = Some (
      if ignoreRequest (wConfig w) req then ServedPlain req
      else TraceAndServe req
             {| Service := wService w;
                Resource := lastNamed (wConfig w) (wResource w)
                              (tracedOf (wConfig w) (take (S i) reqs));
                FinishOpts := finishOpts (wConfig w);
                SpanOpts := spanOpts (wConfig w)
                  ++ serverTags (S (length (tracedOf (wConfig w) (take i reqs))));
                Route := "" |}).
Proof.
  revert w. induction reqs as [| r0 rest IH]; intros w.
  - cbn. repeat split; [apply serverTags_0 | intros i r [=]].
  - cbn [handleAll]. unfold wrappedHandler.
    destruct (ignoreRequest (wConfig w) r0) eqn:Hig.
    + specialize (IH w). destruct (handleAll rest w) as [outs w2].
      cbn [fst snd] in *. destruct IH as (Hkeep & Hres & Hopts & Hout).
      assert (Htr : forall l, tracedOf (wConfig w) (r0 :: l) = tracedOf (wConfig w) l).
      { intros l. unfold tracedOf; cbn. now rewrite Hig. }
      split; [exact Hkeep |]. rewrite Htr. split; [exact Hres |].
      split; [exact Hopts |].
      intros [| i] r Hr; cbn in Hr.
      * injection Hr as <-. cbn. now rewrite Hig.
      * cbn [lookup list_lookup]. rewrite !firstn_cons, !Htr. apply (Hout i r Hr).
    + cbn zeta.
      match goal with
      | |- context [handleAll rest ?c] => specialize (IH c);
          destruct (handleAll rest c) as [outs w2]
      end.
      cbn [fst snd wService wResource wConfig serviceName finishOpts
           ignoreRequest resourceNamer spanOpts] in *.
      destruct IH as (Hkeep & Hres & Hopts & Hout).
      assert (Htr : forall l,
                tracedOf (wConfig w) (r0 :: l) = r0 :: tracedOf (wConfig w) l).
      { intros l. unfold tracedOf; cbn. now rewrite Hig. }
      split; [exact Hkeep |]. split; [| split].
      { rewrite Hres, Htr. reflexivity. }
      { rewrite Hopts, Htr. cbn [length]. unfold tracedOf at 1.
        cbn [ignoreRequest]. apply serverTags_S. }
      intros [| i] r Hr; cbn in Hr.
      * injection Hr as <-. cbn [lookup list_lookup]. rewrite Hig.
        cbn [take]. rewrite Htr. cbn.
        do 2 f_equal. f_equal. apply serverTags_1.
      * etrans; [exact (Hout i r Hr) |]. rewrite !firstn_cons, !Htr.
        destruct (ignoreRequest (wConfig w) r); [reflexivity |].
        do 2 f_equal. f_equal.
        cbn [length]. unfold tracedOf at 1. cbn [ignoreRequest].
        apply serverTags_S.
Qed.

(** X15: The handler of [WrapHandler], serving requests one after the
    other, overwrites the variables it captured.  The traced request at
    position [i] is served under the last non-empty name the resource namer
    gave to a traced request up to and including it, and under the
    [resource] argument only while there was none; its span options are the
    configured ones followed by one pair of tags for each traced request so
    far.  An ignored request changes nothing and goes to the wrapped
    handler as it is. *)
Theorem WrapHandler_resource_sticks (reqs : list request) w :
  wResource (handleAll reqs w).2
    = lastNamed (wConfig w) (wResource w) (tracedOf (wConfig w) reqs) /\
  spanOpts (wConfig (handleAll reqs w).2)
    = spanOpts (wConfig w) ++ serverTags (length (tracedOf (wConfig w) reqs)) /\
  forall i req, reqs !! i = Some req ->
    (handleAll reqs w).1 !! i = Some (
      if ignoreRequest (wConfig w) req then ServedPlain req
      else TraceAndServe req
             {| Service := wService w;
                Resource := lastNamed (wConfig w) (wResource w)
                              (tracedOf (wConfig w) (take (S i) reqs));
                FinishOpts := finishOpts (wConfig w);
                SpanOpts := spanOpts (wConfig w)
                  ++ serverTags (S (length (tracedOf (wConfig w) (take i reqs))));
                Route := "" |}).
Proof. exact (proj2 (handleAll_run reqs w)). Qed.

End facts.

(** A handler wrapped with the resource "fallback" and a namer that only
    names the path /named: the request after the named one is served under
    "named", not under "fallback". *)
Example WrapHandler_later_request_renamed :
  let namer r := if decide (URLPath r = "/named") then "named" else "" in
  let w := mkWrapper "svc" "fallback"
             (mkConfig (FinishOption := unit) "cfg-svc" [] [] (fun _ => false) namer) in
  let get := mkRequest "GET" in
  omap (fun out => match out with
                   | TraceAndServe _ sc => Some (Resource sc)
                   | ServedPlain _ => None
                   end)
       (handleAll [get "/other"; get "/named"; get "/other"] w).1
  = ["fallback"; "named"; "named"].
Proof. reflexivity. Qed.

End NetHTTPFacts.
